(** * yilanoyunu: the authoritative snake-arena server and the client's
    interpolation, embedded in Rocq.

    The server file (rooms, join/input/boost/disconnect handlers and the
    30 Hz game loop) and the client's [update] function are translated
    function by function.  JavaScript numbers that hold coordinates, angles
    and random draws are IEEE 754 binary64 values: they are modelled by the
    kernel's primitive floats, whose [+], [-], [*], [/] and comparisons are
    the same operations.  Counters that only ever hold small integers
    (score, tick counter, target length) are modelled by [Z] and [nat];
    they stay far below 2^53, where binary64 arithmetic on integers is
    exact. *)

From Stdlib Require Import ZArith String Ascii List Bool Lia Floats Permutation.
Import ListNotations.

Set Implicit Arguments.
#[local] Set Warnings "-inexact-float".

(** ** JavaScript objects used as dictionaries

    [rooms] and [room.players] are plain objects: string keys, assignment
    keeps the position of an existing key and appends a new one, and
    [for ... in] / [Object.keys] enumerate the keys that are array indices
    first, in ascending numeric order, and then the other keys in creation
    order.  Room identifiers such as ["1"] are array indices; socket
    identifiers (twenty characters) never are.  A lookup [o[k]] also sees
    the properties every object inherits from [Object.prototype]:
    [inherited] names them.  The keys of [room.players] and of the sockets'
    properties are socket identifiers, which socket.io generates; the keys
    of [rooms] are whatever a client sends as [roomId]. *)
Module JsObj.

Section Obj.
Variable A : Type.

Definition t := list (string * A).

Definition empty : t := [].

Fixpoint get (o : t) (k : string) : option A :=
  match o with
  | [] => None
  | (k', v) :: o' => if String.eqb k k' then Some v else get o' k
  end.

(** [o[k] = v] *)
Fixpoint set (o : t) (k : string) (v : A) : t :=
  match o with
  | [] => [(k, v)]
  | (k', v') :: o' =>
      if String.eqb k k' then (k', v) :: o' else (k', v') :: set o' k v
  end.

(** [delete o[k]] *)
Fixpoint delete (o : t) (k : string) : t :=
  match o with
  | [] => []
  | (k', v') :: o' =>
      if String.eqb k k' then delete o' k else (k', v') :: delete o' k
  end.

End Obj.

(** the names of the properties a plain object inherits from
    [Object.prototype]: for such a [k] that is not an own property, [o[k]]
    is a function or, for [__proto__], the prototype itself, so it is
    truthy and has no property [players] *)
Definition inherited (k : string) : bool :=
  existsb (String.eqb k)
    ["constructor"%string; "__defineGetter__"%string; "__defineSetter__"%string;
     "hasOwnProperty"%string; "__lookupGetter__"%string; "__lookupSetter__"%string;
     "isPrototypeOf"%string; "propertyIsEnumerable"%string; "toString"%string;
     "valueOf"%string; "__proto__"%string; "toLocaleString"%string].

(** [for (const k in o) { ... }] over the keys [ids], where the body reads
    [o[k]], may change that object in place and works on a state besides;
    a key that is gone when its turn comes is skipped *)
Fixpoint for_in (A St : Type) (body : string -> A -> St -> A * St)
         (ids : list string) (o : t A) (st : St) : t A * St :=
  match ids with
  | [] => (o, st)
  | k :: ids' =>
      match get o k with
      | Some a =>
          let (a', st') := body k a st in
          for_in body ids' (set o k a') st'
      | None => for_in body ids' o st
      end
  end.

(** A key is an array index when it is the canonical decimal writing of an
    integer below 2^32 - 1. *)
Definition digit (c : ascii) : option N :=
  let n := N_of_ascii c in
  if (48 <=? n)%N && (n <=? 57)%N then Some (n - 48)%N else None.

Fixpoint parse_digits (s : string) (acc : N) : option N :=
  match s with
  | EmptyString => Some acc
  | String c s' =>
      match digit c with
      | Some d => parse_digits s' (acc * 10 + d)%N
      | None => None
      end
  end.

Definition array_index (s : string) : option N :=
  match s with
  | EmptyString => None
  | String c s' =>
      if Ascii.eqb c "0"%char then
        match s' with EmptyString => Some 0%N | _ => None end
      else
        match parse_digits s 0%N with
        | Some n => if (n <? 4294967295)%N then Some n else None
        | None => None
        end
  end.

(** Each key once, first occurrence kept (an object has a key at most once;
    the lists built by [set] from [empty] never repeat one). *)
Fixpoint dedup (l : list string) : list string :=
  match l with
  | [] => []
  | k :: l' => k :: filter (fun k' => negb (String.eqb k' k)) (dedup l')
  end.

Fixpoint insert_index (n : N) (k : string) (l : list (N * string)) : list (N * string) :=
  match l with
  | [] => [(n, k)]
  | (m, k') :: l' =>
      if (n <=? m)%N then (n, k) :: l else (m, k') :: insert_index n k l'
  end.

Fixpoint index_keys (l : list string) : list (N * string) :=
  match l with
  | [] => []
  | k :: l' =>
      match array_index k with
      | Some n => insert_index n k (index_keys l')
      | None => index_keys l'
      end
  end.

Definition string_keys (l : list string) : list string :=
  filter (fun k => match array_index k with Some _ => false | None => true end) l.

(** The order of [for (const k in o)] and of [Object.keys(o)]. *)
Definition enumerate (l : list string) : list string :=
  map snd (index_keys l) ++ string_keys l.

Definition keys (A : Type) (o : t A) : list string :=
  enumerate (dedup (map fst o)).

End JsObj.

(** ** Numbers and [Math] *)

Open Scope float_scope.

Definition MAP_SIZE : float := 2000.
Definition INITIAL_LENGTH : nat := 5.
Definition SPEED : float := 5.
Definition BOOST_SPEED : float := 10.
Definition INITIAL_SCORE : Z := 100.

(** [-MAP_SIZE / 2] and [MAP_SIZE / 2], as the source writes them *)
Definition MAP_MIN : float := (- MAP_SIZE) / 2.
Definition MAP_MAX : float := MAP_SIZE / 2.

(** ** World entities *)

(** A color is always the template string [hsl(${h}, 100%, 50%)]; only the
    hue varies. *)
Inductive Color : Type :=
| Hsl (hue : float).

Record Segment : Type := mkSegment { s_x : float; s_y : float }.

Record Food : Type := mkFood { f_x : float; f_y : float; f_color : Color }.

(** [p_angle] is the number [Math.cos]/[Math.sin] see (their argument
    converted by ToNumber, so a missing or non-numeric heading is [nan]);
    [p_isBoosting] is the truth value the [&&] of the game loop sees;
    [p_length] starts at [INITIAL_LENGTH] and is only ever incremented. *)
Record Player : Type := mkPlayer {
  p_id : string;
  p_name : string;
  p_x : float;
  p_y : float;
  p_angle : float;
  p_length : nat;
  p_body : list Segment;
  p_color : Color;
  p_score : Z;
  p_isBoosting : bool
}.

(** [lastUpdate] is written once and never read; it is left out. *)
Record Room : Type := mkRoom {
  r_players : JsObj.t Player;
  r_food : list Food;
  r_tickCount : Z
}.

Definition with_pos (p : Player) (x y : float) : Player :=
  mkPlayer (p_id p) (p_name p) x y (p_angle p) (p_length p) (p_body p)
           (p_color p) (p_score p) (p_isBoosting p).

Definition with_angle (p : Player) (a : float) : Player :=
  mkPlayer (p_id p) (p_name p) (p_x p) (p_y p) a (p_length p) (p_body p)
           (p_color p) (p_score p) (p_isBoosting p).

Definition with_length (p : Player) (n : nat) : Player :=
  mkPlayer (p_id p) (p_name p) (p_x p) (p_y p) (p_angle p) n (p_body p)
           (p_color p) (p_score p) (p_isBoosting p).

Definition with_body (p : Player) (b : list Segment) : Player :=
  mkPlayer (p_id p) (p_name p) (p_x p) (p_y p) (p_angle p) (p_length p) b
           (p_color p) (p_score p) (p_isBoosting p).

Definition with_score (p : Player) (s : Z) : Player :=
  mkPlayer (p_id p) (p_name p) (p_x p) (p_y p) (p_angle p) (p_length p) (p_body p)
           (p_color p) s (p_isBoosting p).

Definition with_isBoosting (p : Player) (b : bool) : Player :=
  mkPlayer (p_id p) (p_name p) (p_x p) (p_y p) (p_angle p) (p_length p) (p_body p)
           (p_color p) (p_score p) b.

(** ** Messages the server emits *)

Inductive Message : Type :=
| roomJoined (roomId : string) (mapSize : float)
| gameState (players : JsObj.t Player) (food : list Food)
| dead.

(** [socket.emit] addresses one socket; [io.to(name).emit] addresses the
    socket.io room [name]: the socket whose identifier is [name] and every
    socket that has joined a room of that name. *)
Inductive Target : Type :=
| ToSocket (socketId : string)
| To (name : string).

Record Emit : Type := mkEmit { e_target : Target; e_message : Message }.

(** Closed goals are settled by running the model in the virtual machine,
    one conjunct at a time. *)
Ltac evaluate :=
  repeat match goal with |- _ /\ _ => split end; vm_compute; reflexivity.

(** ** The server

    [Math.cos], [Math.sin] and [Math.hypot] return implementation-approximated
    values except at the arguments where ECMAScript fixes the result; the
    approximations are the section's variables, so every theorem below holds
    for any JavaScript engine.  [random n] is the value of the [n]-th call of
    [Math.random()] since the process started. *)
Section Server.

Variable cosf sinf : float -> float.
Variable hypotf : float -> float -> float.
Variable random : nat -> float.

Definition Math_cos (x : float) : float :=
  if is_nan x || is_infinity x then nan
  else if is_zero x then 1
  else cosf x.

Definition Math_sin (x : float) : float :=
  if is_nan x || is_infinity x then nan
  else if is_zero x then x
  else sinf x.

Definition Math_hypot (x y : float) : float :=
  if is_infinity x || is_infinity y then infinity
  else if is_nan x || is_nan y then nan
  else if is_zero x && is_zero y then 0
  else hypotf x y.

(** [rooms] is the registry; [s_roomId] holds the [roomId] property of each
    socket that has one; [s_rng] counts the calls of [Math.random()] made so
    far; [s_emitted] is the log of emitted messages, oldest first;
    [s_joined] holds the pairs (socket, name) of the [socket.join(name)]
    calls in effect, latest first: socket.io drops a socket's pairs when the
    socket disconnects. *)
Record Server : Type := mkServer {
  rooms : JsObj.t Room;
  s_roomId : JsObj.t string;
  s_rng : nat;
  s_emitted : list Emit;
  s_joined : list (string * string)
}.

Definition initial : Server :=
  mkServer (JsObj.empty Room) (JsObj.empty string) 0 [] [].

(** [generateFood()], called when [n] random numbers have been drawn: the
    food and the new count *)
Definition generateFood (n : nat) : Food * nat :=
  (mkFood (random n * MAP_SIZE - MAP_SIZE / 2)
          (random (n + 1) * MAP_SIZE - MAP_SIZE / 2)
          (Hsl (random (n + 2) * 360)),
   (n + 3)%nat).

(** the [for (let i = 0; i < 100; i++)] of [createRoom], [k] rounds left *)
Fixpoint seed_food (k : nat) (food : list Food) (n : nat) : list Food * nat :=
  match k with
  | O => (food, n)
  | S k' =>
      let (f, n') := generateFood n in
      seed_food k' (food ++ [f]) n'
  end.

Definition createRoom (n : nat) : Room * nat :=
  let (food, n') := seed_food 100 [] n in
  (mkRoom (JsObj.empty Player) food 0, n').

(** *** The game loop, one player's turn (lines 114-168) *)

Record Turn : Type := mkTurn {
  t_player : Player;
  t_food : list Food;
  t_rng : nat
}.

(** [player.body[player.body.length - 1]] *)
Definition tail_of (body : list Segment) : option Segment :=
  nth_error body (length body - 1).

(** "Handle Boosting": the speed of this tick and the state after *)
Definition handle_boosting (tickCount : Z) (t : Turn) : float * Turn :=
  let player := t_player t in
  if p_isBoosting player && (10 <? p_score player)%Z then
    if (Z.rem tickCount 5 =? 0)%Z then
      let player' := with_score player (p_score player - 1) in
      match tail_of (p_body player) with
      | Some tail =>
          let n := t_rng t in
          (BOOST_SPEED,
           mkTurn player'
                  (t_food t ++
                   [mkFood (s_x tail + (random n * 10 - 5))
                           (s_y tail + (random (n + 1) * 10 - 5))
                           (p_color player)])
                  (n + 2))
      | None => (BOOST_SPEED, mkTurn player' (t_food t) (t_rng t))
      end
    else (BOOST_SPEED, t)
  else (SPEED, mkTurn (with_isBoosting player false) (t_food t) (t_rng t)).

(** "Boundary checks", one axis: the two [if]s in their order *)
Definition clamp (v : float) : float :=
  let v1 := if v <? MAP_MIN then MAP_MIN else v in
  if MAP_MAX <? v1 then MAP_MAX else v1.

(** "Move head" and "Boundary checks" *)
Definition move_head (currentSpeed : float) (player : Player) : Player :=
  let x := p_x player + Math_cos (p_angle player) * currentSpeed in
  let y := p_y player + Math_sin (p_angle player) * currentSpeed in
  with_pos player (clamp x) (clamp y).

(** [while (body.length > length) body.pop()], with one unit of fuel per
    element of the body *)
Fixpoint pop_while (fuel : nat) (len : nat) (body : list Segment) : list Segment :=
  match fuel with
  | O => body
  | S fuel' =>
      if (len <? length body)%nat then pop_while fuel' len (removelast body)
      else body
  end.

(** "Update body" *)
Definition update_body (player : Player) : Player :=
  let body := mkSegment (p_x player) (p_y player) :: p_body player in
  with_body player (pop_while (length body) (p_length player) body).

(** [dist < 20] for the food [f] *)
Definition reaches (player : Player) (f : Food) : bool :=
  Math_hypot (p_x player - f_x f) (p_y player - f_y f) <? 20.

(** [room.food.splice(i, 1)] *)
Definition splice1 (i : nat) (food : list Food) : list Food :=
  firstn i food ++ skipn (S i) food.

(** "Check food collision": the rounds of the [for] loop with index below
    [i], highest first.  The loop starts at [room.food.length - 1] and a
    round never shortens the list, so [room.food[i]] is always there. *)
Fixpoint check_food (i : nat) (t : Turn) : Turn :=
  match i with
  | O => t
  | S i' =>
      match nth_error (t_food t) i' with
      | Some f =>
          if reaches (t_player t) f then
            let player := t_player t in
            let player' :=
              with_score (with_length player (p_length player + 1))
                         (p_score player + 10) in
            let (g, n') := generateFood (t_rng t) in
            check_food i' (mkTurn player' (splice1 i' (t_food t) ++ [g]) n')
          else check_food i' t
      | None => check_food i' t
      end
  end.

Definition player_turn (tickCount : Z) (t : Turn) : Turn :=
  let (currentSpeed, t1) := handle_boosting tickCount t in
  let player := update_body (move_head currentSpeed (t_player t1)) in
  let t2 := mkTurn player (t_food t1) (t_rng t1) in
  check_food (length (t_food t2)) t2.

(** The state a room's tick works on: the room and the process-wide random
    count and message log. *)
Record Work : Type := mkWork {
  w_room : Room;
  w_rng : nat;
  w_emitted : list Emit
}.

(** the body of [for (const playerId in players)]: the state beside the
    player is the room's food and the random count *)
Definition move_player (tickCount : Z) (playerId : string) (player : Player)
           (st : list Food * nat) : Player * (list Food * nat) :=
  let t := player_turn tickCount (mkTurn player (fst st) (snd st)) in
  (t_player t, (t_food t, t_rng t)).

(** "Move players" *)
Definition move_players (room : Room) (n : nat) : Room * nat :=
  let (players, st) :=
    JsObj.for_in (move_player (r_tickCount room))
                 (JsObj.keys (r_players room)) (r_players room) (r_food room, n) in
  (mkRoom players (fst st) (r_tickCount room), snd st).

(** *** Collision detection (lines 170-194) *)

(** [dist < 10] for one segment *)
Definition touches (player : Player) (segment : Segment) : bool :=
  Math_hypot (p_x player - s_x segment) (p_y player - s_y segment) <? 10.

(** the value of [dead] after the inner loops for [playerId] *)
Definition is_dead (players : JsObj.t Player) (playerId : string) (player : Player) : bool :=
  existsb
    (fun otherId =>
       if String.eqb playerId otherId then false
       else match JsObj.get players otherId with
            | Some other => existsb (touches player) (p_body other)
            | None => false
            end)
    (JsObj.keys players).

Definition deadPlayers (players : JsObj.t Player) : list string :=
  filter
    (fun playerId =>
       match JsObj.get players playerId with
       | Some player => is_dead players playerId player
       | None => false
       end)
    (JsObj.keys players).

(** *** Handle deaths (lines 196-214) *)

(** [p.body.forEach((seg, index) => ...)] from position [index] on *)
Fixpoint body_to_food (index : nat) (body : list Segment) (c : Color) (food : list Food) : list Food :=
  match body with
  | [] => food
  | seg :: rest =>
      body_to_food (S index) rest c
        (if (index mod 2 =? 0)%nat then food ++ [mkFood (s_x seg) (s_y seg) c] else food)
  end.

(** one round of [deadPlayers.forEach]; [deadPlayers] only holds keys of
    [players], each once, so [p] is always found *)
Definition handle_death (w : Work) (pid : string) : Work :=
  let room := w_room w in
  match JsObj.get (r_players room) pid with
  | Some p =>
      mkWork (mkRoom (JsObj.delete (r_players room) pid)
                     (body_to_food 0 (p_body p) (p_color p) (r_food room))
                     (r_tickCount room))
             (w_rng w)
             (w_emitted w ++ [mkEmit (To pid) dead])
  | None => w
  end.

(** *** One room's tick (lines 109-220) *)

Definition bump (room : Room) : Room :=
  mkRoom (r_players room) (r_food room) (r_tickCount room + 1).

(** the room after "Move players" *)
Definition moved (room : Room) (n : nat) : Room * nat :=
  move_players (bump room) n.

Definition resolve_deaths (w : Work) : Work :=
  fold_left handle_death (deadPlayers (r_players (w_room w))) w.

Definition broadcast (roomId : string) (w : Work) : Work :=
  mkWork (w_room w) (w_rng w)
         (w_emitted w ++
          [mkEmit (To roomId) (gameState (r_players (w_room w)) (r_food (w_room w)))]).

Definition tick_room (roomId : string) (w : Work) : Work :=
  let (room1, n1) := moved (w_room w) (w_rng w) in
  broadcast roomId (resolve_deaths (mkWork room1 n1 (w_emitted w))).

(** the body of [for (const roomId in rooms)]: the state beside the room
    is the random count and the message log *)
Definition tick_body (roomId : string) (room : Room) (st : nat * list Emit)
  : Room * (nat * list Emit) :=
  let w := tick_room roomId (mkWork room (fst st) (snd st)) in
  (w_room w, (w_rng w, w_emitted w)).

(** the callback of [setInterval] *)
Definition gameLoop (s : Server) : Server :=
  let (rooms', st) :=
    JsObj.for_in tick_body (JsObj.keys (rooms s)) (rooms s) (s_rng s, s_emitted s) in
  mkServer rooms' (s_roomId s) (fst st) (snd st) (s_joined s).

(** *** Connection handlers (lines 44-104)

    Payloads are taken at the types the protocol gives them: identifiers
    and names are strings, the heading is a number, the boost intent a truth
    value. *)

(** "Initialize body segments", [k] rounds left *)
Fixpoint init_body (k : nat) (player : Player) : Player :=
  match k with
  | O => player
  | S k' =>
      init_body k'
        (with_body player (p_body player ++ [mkSegment (p_x player) (p_y player)]))
  end.

(** the player object of line 55, with its three random draws in the order
    of the object literal, then its body *)
Definition new_player (socketId playerName : string) (n : nat) : Player * nat :=
  (init_body INITIAL_LENGTH
     (mkPlayer socketId playerName
               (random n * 500 - 250) (random (n + 1) * 500 - 250)
               0 INITIAL_LENGTH [] (Hsl (random (n + 2) * 360))
               INITIAL_SCORE false),
   (n + 3)%nat).

(** A handler returns or throws; either way it leaves a state. *)
Inductive Outcome : Type :=
| Returned (s : Server)
| Thrown (s : Server).

Definition state_after (o : Outcome) : Server :=
  match o with
  | Returned s => s
  | Thrown s => s
  end.

(** lines 55-77, with [room] the object [rooms[roomId]] and [n] random
    numbers drawn so far *)
Definition enter (socketId roomId playerName : string) (room : Room) (n : nat)
           (s : Server) : Server :=
  let (player, n2) := new_player socketId playerName n in
  mkServer
    (JsObj.set (rooms s) roomId
               (mkRoom (JsObj.set (r_players room) socketId player)
                       (r_food room) (r_tickCount room)))
    (JsObj.set (s_roomId s) socketId roomId)
    n2
    (s_emitted s ++ [mkEmit (ToSocket socketId) (roomJoined roomId MAP_SIZE)])
    ((socketId, roomId) :: s_joined s).

(** [socket.on('joinRoom', ...)].  Line 48 joins the socket.io room first.
    [rooms[roomId]] is then the room of that name, or an inherited
    property, or nothing: a room is created only in the last case (line
    50), and with an inherited property the assignment of line 55 throws a
    TypeError, [rooms[roomId].players] being undefined; nothing but the
    [socket.join] has happened by then. *)
Definition joinRoom_handler (socketId roomId playerName : string) (s : Server)
  : Outcome :=
  match JsObj.get (rooms s) roomId with
  | Some room => Returned (enter socketId roomId playerName room (s_rng s) s)
  | None =>
      if JsObj.inherited roomId then
        Thrown (mkServer (rooms s) (s_roomId s) (s_rng s) (s_emitted s)
                         ((socketId, roomId) :: s_joined s))
      else
        let (room, n1) := createRoom (s_rng s) in
        Returned (enter socketId roomId playerName room n1 s)
  end.

(** the state the handler leaves.  socket.io does not catch what a handler
    throws; executions go on from the state left, which is what a process
    that survives the exception does. *)
Definition on_joinRoom (socketId roomId playerName : string) (s : Server) : Server :=
  state_after (joinRoom_handler socketId roomId playerName s).

(** the guard [roomId && rooms[roomId] && rooms[roomId].players[socket.id]]
    of the two intent handlers: the empty string is falsy *)
Definition player_of (socketId : string) (s : Server) : option (string * Room * Player) :=
  match JsObj.get (s_roomId s) socketId with
  | Some roomId =>
      if String.eqb roomId "" then None
      else
        match JsObj.get (rooms s) roomId with
        | Some room =>
            match JsObj.get (r_players room) socketId with
            | Some player => Some (roomId, room, player)
            | None => None
            end
        | None => None
        end
  | None => None
  end.

Definition store_player (socketId roomId : string) (room : Room) (player : Player) (s : Server) : Server :=
  mkServer
    (JsObj.set (rooms s) roomId
               (mkRoom (JsObj.set (r_players room) socketId player)
                       (r_food room) (r_tickCount room)))
    (s_roomId s) (s_rng s) (s_emitted s) (s_joined s).

(** [socket.on('input', ...)] *)
Definition on_input (socketId : string) (angle : float) (s : Server) : Server :=
  match player_of socketId s with
  | Some (roomId, room, player) =>
      store_player socketId roomId room (with_angle player angle) s
  | None => s
  end.

(** [socket.on('boost', ...)] *)
Definition on_boost (socketId : string) (isBoosting : bool) (s : Server) : Server :=
  match player_of socketId s with
  | Some (roomId, room, player) =>
      store_player socketId roomId room (with_isBoosting player isBoosting) s
  | None => s
  end.

(** [socket.on('disconnect', ...)]; the socket and its [roomId] property are
    gone afterwards, and socket.io has taken the socket out of every room
    it had joined *)
Definition on_disconnect (socketId : string) (s : Server) : Server :=
  let rooms' :=
    match JsObj.get (s_roomId s) socketId with
    | Some roomId =>
        if String.eqb roomId "" then rooms s
        else
          match JsObj.get (rooms s) roomId with
          | Some room =>
              let players' := JsObj.delete (r_players room) socketId in
              if (length (JsObj.keys players') =? 0)%nat
              then JsObj.delete (rooms s) roomId
              else JsObj.set (rooms s) roomId
                             (mkRoom players' (r_food room) (r_tickCount room))
          | None => rooms s
          end
    | None => rooms s
    end in
  mkServer rooms' (JsObj.delete (s_roomId s) socketId) (s_rng s) (s_emitted s)
           (filter (fun p => negb (String.eqb (fst p) socketId)) (s_joined s)).

(** *** Executions *)

Inductive Event : Type :=
| joinRoom (socketId roomId playerName : string)
| input (socketId : string) (angle : float)
| boost (socketId : string) (isBoosting : bool)
| disconnect (socketId : string)
| interval.

Definition step (s : Server) (e : Event) : Server :=
  match e with
  | joinRoom socketId roomId playerName => on_joinRoom socketId roomId playerName s
  | input socketId angle => on_input socketId angle s
  | boost socketId isBoosting => on_boost socketId isBoosting s
  | disconnect socketId => on_disconnect socketId s
  | interval => gameLoop s
  end.

Definition run (events : list Event) (s : Server) : Server :=
  fold_left step events s.

(** ** The client's reconciliation (public/game.js)

    The objects of a snapshot have the fields of [Player].  A local entry
    [players[id]] is either an object of the client's own or, after
    [players[id] = targetPlayers[id]] (line 130), the very object
    [targetPlayers[id]]: a write through one name is then seen through the
    other.  Numbers arrive through JSON, which carries finite numbers only. *)

Definition lerpFactor : float := 0.1.

Inductive Local : Type :=
| Shared
| Own (p : Player).

Record Client : Type := mkClient {
  players : JsObj.t Local;
  targetPlayers : JsObj.t Player;
  food : list Food;
  camera : float * float;
  myId : string;
  isPlaying : bool
}.

(** the object [players[id]] *)
Definition rendered (players : JsObj.t Local) (targetPlayers : JsObj.t Player)
           (id : string) : option Player :=
  match JsObj.get players id with
  | Some (Own p) => Some p
  | Some Shared => JsObj.get targetPlayers id
  | None => None
  end.

(** lines 138-149: the assignments to [p], reading [t] *)
Definition interpolate (p t : Player) : Player :=
  mkPlayer (p_id p) (p_name t)
           (p_x p + (p_x t - p_x p) * lerpFactor)
           (p_y p + (p_y t - p_y p) * lerpFactor)
           (p_angle t) (p_length p) (p_body t) (p_color t) (p_score t)
           (p_isBoosting p).

(** the body of [for (const id in targetPlayers)]; the state beside the
    target object is [players] *)
Definition approach (id : string) (t : Player) (players : JsObj.t Local)
  : Player * JsObj.t Local :=
  match JsObj.get players id with
  | None => (t, JsObj.set players id Shared)
  | Some (Own p) => (t, JsObj.set players id (Own (interpolate p t)))
  | Some Shared => (interpolate t t, players)
  end.

(** "Remove disconnected players" *)
Definition forget (targetPlayers : JsObj.t Player) (players : JsObj.t Local) : JsObj.t Local :=
  fold_left
    (fun ps id =>
       match JsObj.get targetPlayers id with
       | Some _ => ps
       | None => JsObj.delete ps id
       end)
    (JsObj.keys players) players.

(** [update()]; the score board's text is not modelled *)
Definition update (c : Client) : Client :=
  let (target1, players1) :=
    JsObj.for_in approach (JsObj.keys (targetPlayers c)) (targetPlayers c) (players c) in
  let players2 := forget target1 players1 in
  let camera' :=
    if isPlaying c then
      match rendered players2 target1 (myId c) with
      | Some p => (p_x p, p_y p)
      | None => camera c
      end
    else camera c in
  mkClient players2 target1 (food c) camera' (myId c) (isPlaying c).

(** the local entries that were the old target's objects keep those objects
    when [targetPlayers] is replaced *)
Fixpoint detach (old : JsObj.t Player) (ps : JsObj.t Local) : JsObj.t Local :=
  match ps with
  | [] => []
  | (id, Own p) :: ps' => (id, Own p) :: detach old ps'
  | (id, Shared) :: ps' =>
      match JsObj.get old id with
      | Some t => (id, Own t) :: detach old ps'
      | None => detach old ps'
      end
  end.

(** [socket.on('gameState', ...)]; the JSON round trip of line 91 copies
    every object *)
Definition on_gameState (statePlayers : JsObj.t Player) (stateFood : list Food)
           (c : Client) : Client :=
  let players1 := detach (targetPlayers c) (players c) in
  let players2 :=
    if (length (JsObj.keys players1) =? 0)%nat
    then map (fun kv => (fst kv, Own (snd kv))) statePlayers
    else players1 in
  mkClient players2 statePlayers stateFood (camera c) (myId c) (isPlaying c).

(** * Vocabulary of the statements *)

(** the speed "Handle Boosting" chooses *)
Definition speed_of (player : Player) : float :=
  if p_isBoosting player && (10 <? p_score player)%Z then BOOST_SPEED else SPEED.

(** a player after "Move head", "Boundary checks" and "Update body" of its
    own turn: a function of the player alone *)
Definition advance (player : Player) : Player :=
  update_body (move_head (speed_of player) player).

(** a player after [k] pickups *)
Definition fed (player : Player) (k : nat) : Player :=
  with_score (with_length player (p_length player + k))
             (p_score player + 10 * Z.of_nat k).

(** the results of [k] successive calls of [generateFood()], the first made
    when [n] random numbers have been drawn *)
Definition fresh_food (k n : nat) : list Food :=
  map (fun j => fst (generateFood (n + 3 * j))) (seq 0 k).

(** the elements at the even positions 0, 2, 4, ... *)
Definition even_indexed (A : Type) (l : list A) : list A :=
  map snd (filter (fun ix => Nat.even (fst ix)) (combine (seq 0 (length l)) l)).

Definition segment_food (c : Color) (seg : Segment) : Food :=
  mkFood (s_x seg) (s_y seg) c.

(** what a dying player leaves behind *)
Definition remains (players : JsObj.t Player) (pid : string) : list Food :=
  match JsObj.get players pid with
  | Some p => map (segment_food (p_color p)) (even_indexed (p_body p))
  | None => []
  end.

(** the number of game-loop ticks among the events *)
Definition ticks (events : list Event) : nat :=
  length (filter (fun e => match e with interval => true | _ => false end) events).

(** [socketId] (re)joins the room [roomId] *)
Definition joins (socketId roomId : string) (e : Event) : bool :=
  match e with
  | joinRoom s r _ => String.eqb s socketId && String.eqb r roomId
  | _ => false
  end.

(** the score a turn takes for boosting *)
Definition boost_cost (tickCount : Z) (player : Player) : Z :=
  if p_isBoosting player && (10 <? p_score player)%Z && (Z.rem tickCount 5 =? 0)%Z
  then 1 else 0.

(** how a player that is in its room before and after the event [e] has
    changed: a tick prepends one segment and trims to the target length the
    turn started with; nothing else touches body or target length *)
Definition body_step (e : Event) (p p' : Player) : Prop :=
  (p_length p <= p_length p')%nat /\
  match e with
  | interval => length (p_body p') = Nat.min (S (length (p_body p))) (p_length p)
  | _ => p_body p' = p_body p /\ p_length p' = p_length p
  end.

(** the client's arithmetic on the specification side of binary64 *)
Definition SF_lerp (sx st : spec_float) : spec_float :=
  SF64add sx (SF64mul (SF64sub st sx) (Prim2SF lerpFactor)).

(** what holds of every player of every reachable state *)
Definition player_ok (p : Player) : Prop :=
  (length (p_body p) <= p_length p)%nat /\
  hd_error (p_body p) = Some (mkSegment (p_x p) (p_y p)) /\
  (INITIAL_LENGTH <= p_length p)%nat /\
  (10 <= p_score p)%Z.

Definition room_ok (room : Room) : Prop :=
  (forall id p, JsObj.get (r_players room) id = Some p -> player_ok p) /\
  (100 <= length (r_food room))%nat.

Definition server_ok (s : Server) : Prop :=
  forall roomId room, JsObj.get (rooms s) roomId = Some room -> room_ok room.

(** ** Inputs of the worked executions

    The executions below keep every heading at 0, where [Math.cos] and
    [Math.sin] are fixed by ECMAScript and the engine's approximations are
    not consulted; distances are computed by the textbook formula, which is
    exact on the inputs used. *)

Definition no_trig (x : float) : float := nan.

Definition textbook_hypot (x y : float) : float := sqrt (x * x + y * y).

(** [Math.random()] sequences: every food of a new room in the corner
    (-1000, -1000) and every player spawned at the origin; the same with the
    room's first food, and every replacement food, at the origin *)
Definition food_in_the_corner (n : nat) : float :=
  if (n <? 300)%nat then 0 else 0.5.

Definition bait (n : nat) : float :=
  if (2 <=? n)%nat && (n <? 300)%nat then 0 else 0.5.

(** a player of target length 5 as [joinRoom] makes it, and one that has
    moved to the right for four ticks *)
Definition snake (id : string) (x y angle : float) (score : Z) (boosting : bool) : Player :=
  mkPlayer id id x y angle 5 (repeat (mkSegment x y) 5) (Hsl 0) score boosting.

Definition stretched (id : string) (x y : float) (score : Z) (boosting : bool) : Player :=
  mkPlayer id id x y 0 5
           [mkSegment x y; mkSegment (x - 5) y; mkSegment (x - 10) y;
            mkSegment (x - 15) y; mkSegment (x - 20) y]
           (Hsl 0) score boosting.

Definition head_on : Room :=
  mkRoom [("A"%string, snake "A" 8 0 0 100 false);
          ("B"%string, snake "B" 0 0 0 100 false)] [] 0.

Definition passing_tail : Room :=
  mkRoom [("A"%string, snake "A" 6 0 0 100 false);
          ("B"%string, stretched "B" 40 0 100 false)] [] 0.

Definition last_paid_boost : Room :=
  mkRoom [("A"%string, stretched "A" 0 0 11 true)] [] 4.

Definition shared_food : Food := mkFood 5 0 (Hsl 0).

Definition two_at_one_food : Room :=
  mkRoom [("A"%string, snake "A" 0 0 0 100 false);
          ("B"%string, snake "B" 0 0 0 100 false)] [shared_food] 0.

(** a client that has received the same snapshot twice, with a frame in
    between *)
Definition snapshot : JsObj.t Player := [("a"%string, snake "a" 3 4 0 100 false)].

Definition at_rest : Client :=
  on_gameState snapshot []
    (update (on_gameState snapshot [] (mkClient [] [] [] (0, 0) "a" true))).

(** the room and the player a key denotes (an empty room and a player at the
    origin when there is none), and what the worked executions read off them *)
Definition room_at (s : Server) (r : string) : Room :=
  match JsObj.get (rooms s) r with
  | Some room => room
  | None => mkRoom [] [] 0
  end.

Definition player_at (room : Room) (id : string) : Player :=
  match JsObj.get (r_players room) id with
  | Some p => p
  | None => snake id 0 0 0 0 false
  end.

Definition summary (s : Server) : list (string * list string * nat * Z) :=
  map (fun kr => (fst kr, JsObj.keys (r_players (snd kr)),
                  length (r_food (snd kr)), r_tickCount (snd kr)))
      (rooms s).

Definition state_of (p : option Player) : option (Z * bool) :=
  match p with
  | Some q => Some (p_score q, p_isBoosting q)
  | None => None
  end.

Definition growth_of (p : option Player) : option (float * float * nat * Z) :=
  match p with
  | Some q => Some (p_x q, p_y q, p_length q, p_score q)
  | None => None
  end.

(** whether the head of the first player touches the body of the second *)
Definition hits_body (head body : option Player) : bool :=
  match head, body with
  | Some a, Some b => existsb (touches a) (p_body b)
  | _, _ => false
  end.

(** whether a handler threw *)
Definition throws (o : Outcome) : bool :=
  match o with
  | Thrown _ => true
  | Returned _ => false
  end.

(** ** Who receives a message

    Delivery is socket.io's: a message addressed to one socket reaches that
    socket; a message addressed to a room reaches the sockets in it, which
    are the socket of that name and the sockets that joined it.  All this
    is said of connected sockets. *)






(** ** More of the client, and the vocabulary of the further properties *)

(** [socket.on('dead', ...)] of the client; [socketId] is the socket's
    identifier, the login screen is not modelled *)
Definition on_dead (socketId : string) (c : Client) : Client :=
  mkClient (players c) (targetPlayers c) (food c) (camera c) socketId false.

(** [k] animation frames, each calling [update()] *)
Fixpoint frames (k : nat) (c : Client) : Client :=
  match k with
  | O => c
  | S k' => frames k' (update c)
  end.

(** [rooms[r].players[id]], when room and player are there *)
Definition player_in (s : Server) (r id : string) : option Player :=
  match JsObj.get (rooms s) r with
  | Some room => JsObj.get (r_players room) id
  | None => None
  end.

(** what the two intent handlers have in common: one field of the socket's
    player is written *)
Definition intent (f : Player -> Player) (socketId : string) (s : Server) : Server :=
  match player_of socketId s with
  | Some (roomId, room, player) => store_player socketId roomId room (f player) s
  | None => s
  end.

(** the number of [gameState] messages in a log *)
Definition broadcasts (out : list Emit) : nat :=
  length (filter (fun e => match e_message e with gameState _ _ => true | _ => false end) out).

(** what a room holds besides its players *)
Definition room_meta (room : Room) : list Food * Z :=
  (r_food room, r_tickCount room).

(** [r] is the room the disconnect handler looks in for the socket: the
    socket's [roomId], when it is not the empty string *)
Definition current_room (socketId : string) (s : Server) (r : string) : bool :=
  match JsObj.get (s_roomId s) socketId with
  | Some roomId => String.eqb r roomId && negb (String.eqb roomId "")
  | None => false
  end.

(** * Facts about objects used as dictionaries *)

Lemma get_set_same (A : Type) (o : JsObj.t A) k v :
  JsObj.get (JsObj.set o k v) k = Some v.
Proof.
  induction o as [|[k' v'] o IH]; simpl.
  - now rewrite String.eqb_refl.
  - destruct (String.eqb k k') eqn:E; simpl; rewrite E; auto.
Qed.

Lemma get_set_other (A : Type) (o : JsObj.t A) k k' v :
  k <> k' -> JsObj.get (JsObj.set o k v) k' = JsObj.get o k'.
Proof.
  intros Hne. induction o as [|[k0 v0] o IH]; simpl.
  - destruct (String.eqb k' k) eqn:E; auto.
    apply String.eqb_eq in E. congruence.
  - destruct (String.eqb k k0) eqn:E; simpl.
    + apply String.eqb_eq in E. subst k0.
      destruct (String.eqb k' k) eqn:E'; auto.
      apply String.eqb_eq in E'. congruence.
    + now rewrite IH.
Qed.

Lemma get_delete_same (A : Type) (o : JsObj.t A) k :
  JsObj.get (JsObj.delete o k) k = None.
Proof.
  induction o as [|[k' v'] o IH]; simpl; auto.
  destruct (String.eqb k k') eqn:E; simpl; auto. now rewrite E.
Qed.

Lemma get_delete_other (A : Type) (o : JsObj.t A) k k' :
  k <> k' -> JsObj.get (JsObj.delete o k) k' = JsObj.get o k'.
Proof.
  intros Hne. induction o as [|[k0 v0] o IH]; simpl; auto.
  destruct (String.eqb k k0) eqn:E; simpl.
  - apply String.eqb_eq in E. subst k0.
    destruct (String.eqb k' k) eqn:E'; auto.
    apply String.eqb_eq in E'. congruence.
  - now rewrite IH.
Qed.

Lemma get_delete_some (A : Type) (o : JsObj.t A) k k' v :
  JsObj.get (JsObj.delete o k) k' = Some v -> k <> k' /\ JsObj.get o k' = Some v.
Proof.
  intros H. destruct (String.eqb_spec k k') as [->|Hne].
  - rewrite get_delete_same in H. discriminate.
  - rewrite get_delete_other in H by assumption. auto.
Qed.

Lemma get_in_fst (A : Type) (o : JsObj.t A) k :
  In k (map fst o) <-> exists v, JsObj.get o k = Some v.
Proof.
  induction o as [|[k' v'] o IH]; simpl.
  - split; [tauto | intros [v H]; discriminate].
  - destruct (String.eqb_spec k k') as [->|Hne].
    + split; eauto.
    + rewrite <- IH. split; [intros [H|H]; congruence || auto | auto].
Qed.

Lemma map_fst_set (A : Type) (o : JsObj.t A) k a v :
  JsObj.get o k = Some a -> map fst (JsObj.set o k v) = map fst o.
Proof.
  induction o as [|[k' v'] o IH]; simpl; [discriminate|].
  destruct (String.eqb k k') eqn:E; simpl; auto.
  intros H. now rewrite IH.
Qed.

Lemma in_dedup l k : In k (JsObj.dedup l) <-> In k l.
Proof.
  induction l as [|k' l IH]; simpl; [tauto|].
  rewrite filter_In, IH, negb_true_iff.
  destruct (String.eqb_spec k k') as [->|Hne]; split; auto.
  - intros [H|[H _]]; auto.
  - intros [H|H]; [congruence | auto].
Qed.

Lemma NoDup_dedup l : NoDup (JsObj.dedup l).
Proof.
  induction l as [|k l IH]; simpl; constructor.
  - rewrite filter_In, String.eqb_refl. simpl. intros [_ H]. discriminate.
  - now apply NoDup_filter.
Qed.

Lemma insert_index_perm n k l :
  Permutation (map snd (JsObj.insert_index n k l)) (k :: map snd l).
Proof.
  induction l as [|[m k'] l IH]; simpl; auto.
  destruct (n <=? m)%N; simpl; auto.
  rewrite IH. apply perm_swap.
Qed.

Lemma enumerate_perm l : Permutation (JsObj.enumerate l) l.
Proof.
  unfold JsObj.enumerate, JsObj.string_keys.
  induction l as [|k l IH]; simpl; auto.
  destruct (JsObj.array_index k); simpl.
  - rewrite insert_index_perm. simpl. now constructor.
  - rewrite <- Permutation_middle. now constructor.
Qed.

Lemma keys_perm (A : Type) (o : JsObj.t A) :
  Permutation (JsObj.keys o) (JsObj.dedup (map fst o)).
Proof. apply enumerate_perm. Qed.

Lemma keys_in (A : Type) (o : JsObj.t A) k :
  In k (JsObj.keys o) <-> exists v, JsObj.get o k = Some v.
Proof.
  rewrite <- get_in_fst, <- (in_dedup (map fst o)).
  split; apply Permutation_in; [|symmetry]; apply keys_perm.
Qed.

Lemma keys_NoDup (A : Type) (o : JsObj.t A) : NoDup (JsObj.keys o).
Proof.
  eapply Permutation_NoDup; [symmetry; apply keys_perm | apply NoDup_dedup].
Qed.

(** ** [for ... in] loops *)

Section ForIn.
Variables A St : Type.
Variable body : string -> A -> St -> A * St.
Variable I : St -> Prop.
Hypothesis body_keeps : forall k a st, I st -> I (snd (body k a st)).

Lemma for_in_fst ids (o : JsObj.t A) st :
  map fst (fst (JsObj.for_in body ids o st)) = map fst o.
Proof.
  revert o st. induction ids as [|k ids IH]; intros o st; simpl; auto.
  destruct (JsObj.get o k) as [a|] eqn:G; auto.
  destruct (body k a st) as [a' st']. rewrite IH.
  now apply map_fst_set with (a := a).
Qed.

Lemma for_in_state ids (o : JsObj.t A) st :
  I st -> I (snd (JsObj.for_in body ids o st)).
Proof.
  revert o st. induction ids as [|k ids IH]; intros o st Hst; simpl; auto.
  destruct (JsObj.get o k) as [a|] eqn:G; auto.
  specialize (body_keeps k a Hst).
  destruct (body k a st) as [a' st']. auto.
Qed.

Lemma for_in_get_none ids (o : JsObj.t A) st k :
  JsObj.get o k = None -> JsObj.get (fst (JsObj.for_in body ids o st)) k = None.
Proof.
  intros H.
  destruct (JsObj.get (fst (JsObj.for_in body ids o st)) k) as [a'|] eqn:G; auto.
  assert (In k (map fst o)) as Hin.
  { rewrite <- (for_in_fst ids o st). apply get_in_fst. eauto. }
  apply get_in_fst in Hin. destruct Hin as [v Hv]. congruence.
Qed.

(** Every key of [ids] is visited once: the object under a key is either
    untouched or the result of one round of the body. *)
Lemma for_in_get ids (o : JsObj.t A) st k a :
  NoDup ids -> I st -> JsObj.get o k = Some a ->
  exists a', JsObj.get (fst (JsObj.for_in body ids o st)) k = Some a' /\
    ((~ In k ids /\ a' = a) \/
     (In k ids /\ exists st0, I st0 /\ a' = fst (body k a st0))).
Proof.
  revert o st a. induction ids as [|k0 ids IH]; intros o st a Hnd Hst Hget; simpl.
  - exists a. split; auto.
  - inversion Hnd as [|? ? Hnotin Hnd']; subst.
    destruct (JsObj.get o k0) as [a0|] eqn:G0.
    + pose proof (body_keeps k0 a0 Hst) as Hst'.
      destruct (body k0 a0 st) as [a0' st'] eqn:B. simpl in Hst'.
      destruct (String.eqb_spec k0 k) as [->|Hne].
      * assert (a0 = a) by congruence. subst a0.
        destruct (IH (JsObj.set o k a0') st' a0' Hnd' Hst' (get_set_same o k a0'))
          as [a' [Ha' [[_ ->]|[Hin _]]]]; [|contradiction].
        exists a0'. split; auto. right. split; auto.
        exists st. split; auto. now rewrite B.
      * assert (JsObj.get (JsObj.set o k0 a0') k = Some a) as Hget'
          by (rewrite get_set_other; auto).
        destruct (IH _ st' a Hnd' Hst' Hget') as [a' [Ha' Hcase]].
        exists a'. split; auto.
        destruct Hcase as [[Hn ->]|[Hin Hex]]; [left|right]; split; auto.
        intros [->|Hin]; auto.
    + assert (k0 <> k) as Hne by (intros ->; congruence).
      destruct (IH o st a Hnd' Hst Hget) as [a' [Ha' Hcase]].
      exists a'. split; auto.
      destruct Hcase as [[Hn ->]|[Hin Hex]]; [left|right]; split; auto.
      intros [->|Hin]; auto.
Qed.

End ForIn.

(** * One player's turn *)

Lemma handle_boosting_speed tickCount t :
  fst (handle_boosting tickCount t) = speed_of (t_player t).
Proof.
  unfold handle_boosting, speed_of.
  destruct (p_isBoosting (t_player t) && (10 <? p_score (t_player t))%Z); auto.
  destruct (Z.rem tickCount 5 =? 0)%Z; auto.
  destruct (tail_of (p_body (t_player t))); auto.
Qed.

(** "Handle Boosting" leaves position, heading, target length and body
    alone, never raises the score, keeps it at 10 or more, and only adds
    food. *)
Lemma handle_boosting_frame tickCount t :
  let p := t_player t in
  let p' := t_player (snd (handle_boosting tickCount t)) in
  p_x p' = p_x p /\ p_y p' = p_y p /\ p_angle p' = p_angle p /\
  p_length p' = p_length p /\ p_body p' = p_body p /\
  (p_score p' <= p_score p)%Z /\
  ((10 <= p_score p)%Z -> (10 <= p_score p')%Z) /\
  (length (t_food t) <= length (t_food (snd (handle_boosting tickCount t))))%nat.
Proof.
  unfold handle_boosting.
  destruct (p_isBoosting (t_player t) && (10 <? p_score (t_player t))%Z) eqn:B;
    simpl; [|repeat split; auto; lia].
  apply andb_true_iff in B. destruct B as [_ B]. apply Z.ltb_lt in B.
  destruct (Z.rem tickCount 5 =? 0)%Z; simpl; [|repeat split; auto; lia].
  destruct (tail_of (p_body (t_player t))); simpl;
    repeat split; auto; try lia.
  rewrite length_app. simpl. lia.
Qed.

Lemma removelast_length (body : list Segment) :
  length (removelast body) = (length body - 1)%nat.
Proof.
  destruct body as [|x l] using rev_ind; auto.
  rewrite removelast_last, length_app. simpl. lia.
Qed.

Lemma pop_while_firstn fuel len (body : list Segment) :
  (length body <= fuel + len)%nat -> pop_while fuel len body = firstn len body.
Proof.
  revert body. induction fuel as [|fuel IH]; intros body H; simpl.
  - symmetry. apply firstn_all2. lia.
  - destruct (len <? length body)%nat eqn:E.
    + apply Nat.ltb_lt in E.
      rewrite IH by (rewrite removelast_length; lia).
      rewrite removelast_firstn_len, firstn_firstn. f_equal. lia.
    + apply Nat.ltb_ge in E. symmetry. now apply firstn_all2.
Qed.

Lemma update_body_body player :
  p_body (update_body player) =
  firstn (p_length player) (mkSegment (p_x player) (p_y player) :: p_body player).
Proof.
  unfold update_body. cbn [p_body with_body].
  apply pop_while_firstn. lia.
Qed.

Lemma splice1_middle (pre : list Food) f suf :
  splice1 (length pre) (pre ++ f :: suf) = pre ++ suf.
Proof.
  unfold splice1. induction pre as [|g pre IH]; auto.
  cbn [length firstn skipn app]. f_equal. exact IH.
Qed.

Lemma fed_step player k :
  fed (with_score (with_length player (p_length player + 1)) (p_score player + 10)) k =
  fed player (S k).
Proof.
  destruct player. unfold fed, with_score, with_length.
  cbn [p_id p_name p_x p_y p_angle p_length p_body p_color p_score p_isBoosting].
  f_equal; lia.
Qed.

Lemma fresh_food_S k n :
  fresh_food (S k) n = fst (generateFood n) :: fresh_food k (n + 3).
Proof.
  unfold fresh_food. cbn [seq map]. f_equal.
  - f_equal. f_equal. lia.
  - rewrite <- seq_shift, map_map. apply map_ext. intros j.
    f_equal. f_equal. lia.
Qed.

(** "Check food collision" over the first [length pre] foods of the list:
    those the head reaches are removed, the others keep their order, and one
    new food per pickup is pushed behind everything else. *)
Lemma check_food_split pre suf player n :
  let k := length (filter (reaches player) pre) in
  check_food (length pre) (mkTurn player (pre ++ suf) n) =
  mkTurn (fed player k)
         (filter (fun f => negb (reaches player f)) pre ++ suf ++ fresh_food k n)
         (n + 3 * k).
Proof.
  revert suf player n.
  induction pre as [|f pre IH] using rev_ind; intros suf player n; cbn zeta.
  - simpl. unfold fed, fresh_food. simpl.
    rewrite app_nil_r, Nat.add_0_r, Z.add_0_r, Nat.add_0_r.
    now destruct player.
  - rewrite length_app. simpl length. rewrite Nat.add_1_r.
    cbn [check_food t_food t_player t_rng].
    rewrite <- app_assoc.
    rewrite nth_error_app2 by lia. rewrite Nat.sub_diag. cbn [nth_error app].
    rewrite !filter_app. cbn [filter].
    destruct (reaches player f) eqn:R; cbn [negb].
    + unfold generateFood at 1. cbn [fst snd].
      rewrite splice1_middle.
      rewrite <- app_assoc.
      specialize (IH (suf ++ [mkFood (random n * MAP_SIZE - MAP_SIZE / 2)
                                     (random (n + 1) * MAP_SIZE - MAP_SIZE / 2)
                                     (Hsl (random (n + 2) * 360))])
                     (with_score (with_length player (p_length player + 1))
                                 (p_score player + 10)) (n + 3)%nat).
      cbn zeta in IH. change (reaches (with_score _ _)) with (reaches player) in IH.
      rewrite IH, length_app. cbn [length].
      replace (length (filter (reaches player) pre) + 1)%nat
        with (S (length (filter (reaches player) pre))) by lia.
      rewrite fresh_food_S, app_nil_r.
      unfold generateFood. cbn [fst].
      rewrite <- !app_assoc. cbn [app].
      rewrite fed_step. f_equal. lia.
    + rewrite app_nil_r. rewrite IH.
      rewrite <- !app_assoc. reflexivity.
Qed.

Lemma check_food_all food player n :
  let k := length (filter (reaches player) food) in
  check_food (length food) (mkTurn player food n) =
  mkTurn (fed player k)
         (filter (fun f => negb (reaches player f)) food ++ fresh_food k n)
         (n + 3 * k).
Proof.
  pose proof (check_food_split food [] player n) as H.
  rewrite app_nil_r in H. exact H.
Qed.

(** The whole turn in closed form. *)
Lemma player_turn_closed tickCount t :
  let t1 := snd (handle_boosting tickCount t) in
  let q := update_body (move_head (speed_of (t_player t)) (t_player t1)) in
  let k := length (filter (reaches q) (t_food t1)) in
  player_turn tickCount t =
  mkTurn (fed q k)
         (filter (fun f => negb (reaches q f)) (t_food t1) ++ fresh_food k (t_rng t1))
         (t_rng t1 + 3 * k).
Proof.
  cbn zeta. unfold player_turn.
  rewrite <- (handle_boosting_speed tickCount t).
  destruct (handle_boosting tickCount t) as [speed t1]. cbn [fst snd].
  cbn [t_food]. apply check_food_all.
Qed.

(** Position and body after a turn are those of [advance]: they depend on
    nothing but the player's own state before the turn. *)
Lemma player_turn_advance tickCount t :
  let p' := t_player (player_turn tickCount t) in
  p_x p' = p_x (advance (t_player t)) /\
  p_y p' = p_y (advance (t_player t)) /\
  p_body p' = p_body (advance (t_player t)).
Proof.
  cbn zeta. rewrite player_turn_closed. cbn [t_player].
  destruct (handle_boosting_frame tickCount t)
    as (Hx & Hy & Ha & Hl & Hb & _).
  cbn zeta in *.
  set (p1 := t_player (snd (handle_boosting tickCount t))) in *.
  unfold advance.
  repeat split.
  - cbn. now rewrite Hx, Ha.
  - cbn. now rewrite Hy, Ha.
  - unfold fed. cbn [p_body with_score with_length].
    rewrite !update_body_body. cbn. now rewrite Hx, Hy, Ha, Hl, Hb.
Qed.

(** Growth, trimming and score over one turn. *)
Lemma player_turn_growth tickCount t :
  let p := t_player t in
  let p' := t_player (player_turn tickCount t) in
  (p_length p <= p_length p')%nat /\
  length (p_body p') = Nat.min (S (length (p_body p))) (p_length p) /\
  ((1 <= p_length p)%nat ->
   hd_error (p_body p') = Some (mkSegment (p_x p') (p_y p'))) /\
  ((10 <= p_score p)%Z -> (10 <= p_score p')%Z) /\
  (length (t_food t) <= length (t_food (player_turn tickCount t)))%nat.
Proof.
  cbn zeta. rewrite player_turn_closed. cbn [t_player t_food].
  destruct (handle_boosting_frame tickCount t)
    as (Hx & Hy & Ha & Hl & Hb & Hs & Hs10 & Hf).
  cbn zeta in *.
  set (t1 := snd (handle_boosting tickCount t)) in *.
  set (q := update_body (move_head (speed_of (t_player t)) (t_player t1))).
  set (k := length (filter (reaches q) (t_food t1))).
  assert (p_length q = p_length (t_player t)) as Hlq by (cbn; auto).
  assert (p_score q = p_score (t_player t1)) as Hsq by reflexivity.
  assert (p_body q = firstn (p_length (t_player t))
                            (mkSegment (p_x q) (p_y q) :: p_body (t_player t))) as Hbq.
  { unfold q. rewrite update_body_body. cbn. now rewrite Hl, Hb. }
  unfold fed. cbn [p_length p_body p_score p_x p_y with_score with_length].
  repeat split.
  - lia.
  - rewrite Hbq, length_firstn. simpl length. lia.
  - intros H1. rewrite Hbq.
    destruct (p_length (t_player t)); [lia | reflexivity].
  - intros H10. specialize (Hs10 H10). lia.
  - rewrite length_app. unfold fresh_food. rewrite length_map, length_seq.
    subst k.
    pose proof (filter_length (reaches q) (t_food t1)) as HF.
    assert (length (filter (fun f => negb (reaches q f)) (t_food t1))
            = length (filter (fun x => negb (reaches q x)) (t_food t1))) by reflexivity.
    lia.
Qed.

(** * One room's tick *)

Lemma move_player_food tickCount (food0 : list Food) k a st :
  (length food0 <= length (fst st))%nat ->
  (length food0 <= length (fst (snd (move_player tickCount k a st))))%nat.
Proof.
  intros H. unfold move_player. cbn [fst snd].
  pose proof (player_turn_growth tickCount (mkTurn a (fst st) (snd st))) as G.
  cbn zeta in G. cbn [t_food] in G. lia.
Qed.

Lemma moved_frame room n :
  let room1 := fst (moved room n) in
  r_tickCount room1 = (r_tickCount room + 1)%Z /\
  map fst (r_players room1) = map fst (r_players room) /\
  (length (r_food room) <= length (r_food room1))%nat.
Proof.
  cbn zeta. unfold moved, move_players, bump. cbn [r_players r_food r_tickCount].
  pose proof (for_in_fst (move_player (r_tickCount room + 1))
                (JsObj.keys (r_players room)) (r_players room) (r_food room, n)) as Hk.
  pose proof (@for_in_state _ _ (move_player (r_tickCount room + 1))
                (fun st => (length (r_food room) <= length (fst st))%nat)
                (move_player_food (r_tickCount room + 1) (r_food room))
                (JsObj.keys (r_players room)) (r_players room) (r_food room, n)
                (le_n _)) as Hf.
  destruct (JsObj.for_in _ _ _ _) as [players st]. cbn in *. auto.
Qed.

(** After "Move players" every player has had exactly one turn. *)
Lemma moved_get room n id p :
  JsObj.get (r_players room) id = Some p ->
  exists food0 n0,
    (length (r_food room) <= length food0)%nat /\
    JsObj.get (r_players (fst (moved room n))) id =
    Some (t_player (player_turn (r_tickCount room + 1) (mkTurn p food0 n0))).
Proof.
  intros Hget. unfold moved, move_players, bump. cbn [r_players r_food r_tickCount].
  destruct (@for_in_get _ _ (move_player (r_tickCount room + 1))
              (fun st => (length (r_food room) <= length (fst st))%nat)
              (move_player_food (r_tickCount room + 1) (r_food room))
              (JsObj.keys (r_players room)) (r_players room) (r_food room, n) id p
              (keys_NoDup _) (le_n _) Hget) as [p' [Hp' Hcase]].
  destruct (JsObj.for_in _ _ _ _) as [players st]. cbn [fst r_players] in *.
  destruct Hcase as [[Hnot _]|[_ [st0 [Hst0 ->]]]].
  - exfalso. apply Hnot. apply keys_in. eauto.
  - exists (fst st0), (snd st0). split; auto.
Qed.

Lemma moved_get_none room n id :
  JsObj.get (r_players room) id = None ->
  JsObj.get (r_players (fst (moved room n))) id = None.
Proof.
  intros H.
  destruct (JsObj.get (r_players (fst (moved room n))) id) eqn:G; auto.
  assert (In id (map fst (r_players room))) as Hin.
  { destruct (moved_frame room n) as (_ & <- & _). apply get_in_fst. eauto. }
  apply get_in_fst in Hin. destruct Hin as [v Hv]. congruence.
Qed.

Lemma moved_get_inv room n id p' :
  JsObj.get (r_players (fst (moved room n))) id = Some p' ->
  exists p food0 n0,
    JsObj.get (r_players room) id = Some p /\
    (length (r_food room) <= length food0)%nat /\
    p' = t_player (player_turn (r_tickCount room + 1) (mkTurn p food0 n0)).
Proof.
  intros H. destruct (JsObj.get (r_players room) id) as [p|] eqn:G.
  - destruct (moved_get room n id G) as (food0 & n0 & Hf & Hg).
    exists p, food0, n0. repeat split; auto. congruence.
  - rewrite (moved_get_none room n id G) in H. discriminate.
Qed.

(** ** Deaths *)

Lemma even_mod2 i : (i mod 2 =? 0)%nat = Nat.even i.
Proof.
  destruct (Nat.even i) eqn:E.
  - apply Nat.even_spec in E. destruct E as [m ->].
    apply Nat.eqb_eq. rewrite Nat.mul_comm. apply Nat.Div0.mod_mul.
  - apply Nat.eqb_neq. intros H.
    assert (Nat.even i = true); [|congruence].
    apply Nat.even_spec. exists (i / 2)%nat.
    pose proof (Nat.div_mod_eq i 2). lia.
Qed.

Lemma body_to_food_from index body c food0 :
  body_to_food index body c food0 =
  food0 ++ map (segment_food c)
             (map snd (filter (fun ix => Nat.even (fst ix))
                              (combine (seq index (length body)) body))).
Proof.
  revert index food0. induction body as [|seg body IH]; intros index food0.
  - simpl. now rewrite app_nil_r.
  - cbn [body_to_food length seq combine filter fst].
    rewrite IH, even_mod2. destruct (Nat.even index); cbn [map snd]; auto.
    now rewrite <- app_assoc.
Qed.

Lemma body_to_food_even body c food0 :
  body_to_food 0 body c food0 = food0 ++ map (segment_food c) (even_indexed body).
Proof. apply body_to_food_from. Qed.

Lemma deaths_closed dp : forall w,
  NoDup dp ->
  (forall pid, In pid dp -> exists p, JsObj.get (r_players (w_room w)) pid = Some p) ->
  let w' := fold_left handle_death dp w in
  r_food (w_room w') = r_food (w_room w) ++ flat_map (remains (r_players (w_room w))) dp /\
  r_tickCount (w_room w') = r_tickCount (w_room w) /\
  w_rng w' = w_rng w /\
  w_emitted w' = w_emitted w ++ map (fun pid => mkEmit (To pid) dead) dp /\
  (forall id, JsObj.get (r_players (w_room w')) id =
              if in_dec string_dec id dp then None
              else JsObj.get (r_players (w_room w)) id).
Proof.
  induction dp as [|pid dp IH]; intros w Hnd Hall; cbn zeta.
  - simpl. rewrite !app_nil_r. repeat split; auto.
  - inversion Hnd as [|? ? Hnotin Hnd']; subst.
    cbn [fold_left].
    destruct (Hall pid (or_introl eq_refl)) as [p Hp].
    assert (handle_death w pid =
            mkWork (mkRoom (JsObj.delete (r_players (w_room w)) pid)
                           (body_to_food 0 (p_body p) (p_color p) (r_food (w_room w)))
                           (r_tickCount (w_room w)))
                   (w_rng w) (w_emitted w ++ [mkEmit (To pid) dead])) as Hd
      by (unfold handle_death; now rewrite Hp).
    rewrite Hd. clear Hd.
    match goal with |- context [fold_left handle_death dp ?w1] =>
      destruct (IH w1 Hnd') as (Hf & Ht & Hr & He & Hg) end.
    { intros q Hq. cbn [w_room r_players].
      rewrite get_delete_other by (intros ->; contradiction).
      apply Hall. now right. }
    cbn zeta in *. cbn [w_room r_players r_food r_tickCount w_rng w_emitted] in *.
    rewrite Hf, Ht, Hr, He. repeat split; auto.
    + rewrite body_to_food_even, <- app_assoc. f_equal.
      cbn [flat_map]. unfold remains at 2. rewrite Hp. f_equal.
      rewrite !flat_map_concat_map. f_equal.
      apply map_ext_in. intros q Hq. unfold remains.
      rewrite get_delete_other; auto. intros ->. contradiction.
    + cbn [map]. now rewrite <- app_assoc.
    + intros id. rewrite Hg.
      destruct (in_dec string_dec id dp) as [Hin|Hnin];
        destruct (in_dec string_dec id (pid :: dp)) as [Hin'|Hnin']; auto.
      * exfalso. apply Hnin'. now right.
      * destruct Hin' as [<-|Hin']; [|contradiction].
        apply get_delete_same.
      * apply get_delete_other. intros ->. apply Hnin'. now left.
Qed.

(** ** Collision detection *)

Lemma deadPlayers_NoDup players : NoDup (deadPlayers players).
Proof. unfold deadPlayers. apply NoDup_filter, keys_NoDup. Qed.

Lemma is_dead_spec players id p :
  is_dead players id p = true <->
  exists other q seg,
    other <> id /\ JsObj.get players other = Some q /\
    In seg (p_body q) /\ touches p seg = true.
Proof.
  unfold is_dead. rewrite existsb_exists. split.
  - intros [other [Hin H]].
    destruct (String.eqb_spec id other) as [->|Hne]; [discriminate|].
    destruct (JsObj.get players other) as [q|] eqn:G; [|discriminate].
    apply existsb_exists in H. destruct H as [seg [Hseg Ht]].
    exists other, q, seg. repeat split; auto.
  - intros (other & q & seg & Hne & G & Hseg & Ht).
    exists other. split; [apply keys_in; eauto|].
    destruct (String.eqb_spec id other) as [->|_]; [congruence|].
    rewrite G. apply existsb_exists. eauto.
Qed.

Lemma deadPlayers_spec players id :
  In id (deadPlayers players) <->
  exists p, JsObj.get players id = Some p /\ is_dead players id p = true.
Proof.
  unfold deadPlayers. rewrite filter_In. split.
  - intros [_ H]. destruct (JsObj.get players id) as [p|]; [eauto|discriminate].
  - intros [p [G H]]. split; [apply keys_in; eauto|]. now rewrite G.
Qed.

(** ** The tick in closed form *)

Lemma tick_room_closed roomId w :
  let room1 := fst (moved (w_room w) (w_rng w)) in
  let dp := deadPlayers (r_players room1) in
  let w' := tick_room roomId w in
  r_food (w_room w') = r_food room1 ++ flat_map (remains (r_players room1)) dp /\
  r_tickCount (w_room w') = (r_tickCount (w_room w) + 1)%Z /\
  w_emitted w' =
    w_emitted w ++ map (fun pid => mkEmit (To pid) dead) dp ++
    [mkEmit (To roomId) (gameState (r_players (w_room w')) (r_food (w_room w')))] /\
  (forall id, JsObj.get (r_players (w_room w')) id =
              if in_dec string_dec id dp then None
              else JsObj.get (r_players room1) id).
Proof.
  cbn zeta. unfold tick_room.
  destruct (moved_frame (w_room w) (w_rng w)) as (Ht & _ & _). cbn zeta in Ht.
  destruct (moved (w_room w) (w_rng w)) as [room1 n1]. cbn [fst] in *.
  unfold resolve_deaths, broadcast. cbn [w_room w_rng w_emitted].
  destruct (@deaths_closed (deadPlayers (r_players room1))
              (mkWork room1 n1 (w_emitted w)) (deadPlayers_NoDup _))
    as (Hf & Htk & Hr & He & Hg).
  { intros pid Hin. apply deadPlayers_spec in Hin.
    destruct Hin as [p [G _]]. eauto. }
  cbn zeta in *. cbn [w_room w_rng w_emitted] in *.
  rewrite Hf, Htk, He, Ht. repeat split; auto.
  now rewrite <- app_assoc.
Qed.

(** * Invariants of the reachable states *)

Lemma player_turn_ok tickCount p food0 n :
  player_ok p -> player_ok (t_player (player_turn tickCount (mkTurn p food0 n))).
Proof.
  intros (Hlen & Hhd & Hinit & Hscore).
  destruct (player_turn_growth tickCount (mkTurn p food0 n))
    as (Hl & Hb & Hh & Hs & _).
  cbn zeta in *. cbn [t_player] in *. unfold player_ok, INITIAL_LENGTH in *.
  repeat split; auto; try lia.
  apply Hh. lia.
Qed.

Lemma seed_food_length k : forall food0 n,
  length (fst (seed_food k food0 n)) = (length food0 + k)%nat.
Proof.
  induction k as [|k IH]; intros food0 n; simpl; [lia|].
  rewrite IH, length_app. simpl. lia.
Qed.

Lemma createRoom_ok n : room_ok (fst (createRoom n)).
Proof.
  unfold createRoom. pose proof (seed_food_length 100 [] n) as H.
  destruct (seed_food 100 [] n) as [food0 n']. cbn [fst] in *.
  split; cbn [r_players r_food].
  - intros id p G. discriminate.
  - simpl in H. lia.
Qed.

Lemma new_player_ok socketId playerName n :
  player_ok (fst (new_player socketId playerName n)).
Proof.
  unfold new_player, player_ok, INITIAL_LENGTH, INITIAL_SCORE. cbn.
  repeat split; lia.
Qed.

Lemma room_ok_set room id p :
  room_ok room -> player_ok p ->
  room_ok (mkRoom (JsObj.set (r_players room) id p) (r_food room) (r_tickCount room)).
Proof.
  intros [Hp Hf] Hok. split; cbn [r_players r_food]; auto.
  intros id' p' G. destruct (String.eqb_spec id id') as [->|Hne].
  - rewrite get_set_same in G. congruence.
  - rewrite get_set_other in G by assumption. eauto.
Qed.

Lemma room_ok_delete room id :
  room_ok room ->
  room_ok (mkRoom (JsObj.delete (r_players room) id) (r_food room) (r_tickCount room)).
Proof.
  intros [Hp Hf]. split; cbn [r_players r_food]; auto.
  intros id' p' G. apply get_delete_some in G. destruct G as [_ G]. eauto.
Qed.

Lemma server_ok_set s roomId room rid n out joined :
  server_ok s -> room_ok room ->
  server_ok (mkServer (JsObj.set (rooms s) roomId room) rid n out joined).
Proof.
  intros Hs Hr r room' G. cbn [rooms] in G.
  destruct (String.eqb_spec roomId r) as [->|Hne].
  - rewrite get_set_same in G. congruence.
  - rewrite get_set_other in G by assumption. eauto.
Qed.

Lemma tick_room_ok roomId w :
  room_ok (w_room w) -> room_ok (w_room (tick_room roomId w)).
Proof.
  intros [Hp Hf].
  destruct (tick_room_closed roomId w) as (Hfood & _ & _ & Hget). cbn zeta in *.
  destruct (moved_frame (w_room w) (w_rng w)) as (_ & _ & Hlen). cbn zeta in *.
  split.
  - intros id p' G. rewrite Hget in G.
    destruct (in_dec string_dec id _); [discriminate|].
    apply moved_get_inv in G. destruct G as (p & food0 & n0 & G & _ & ->).
    apply player_turn_ok. eauto.
  - rewrite Hfood, length_app. lia.
Qed.

Lemma gameLoop_get s roomId room' :
  JsObj.get (rooms (gameLoop s)) roomId = Some room' ->
  exists room n out,
    JsObj.get (rooms s) roomId = Some room /\
    room' = w_room (tick_room roomId (mkWork room n out)).
Proof.
  unfold gameLoop. intros G.
  destruct (JsObj.get (rooms s) roomId) as [room|] eqn:G0.
  - destruct (@for_in_get _ _ tick_body (fun _ => True) (fun _ _ _ _ => I)
                (JsObj.keys (rooms s)) (rooms s) (s_rng s, s_emitted s) roomId room
                (keys_NoDup _) I G0) as [r' [Hr' Hcase]].
    destruct (JsObj.for_in _ _ _ _) as [rooms' st]. cbn [rooms fst] in *.
    destruct Hcase as [[Hnot _]|[_ [st0 [_ ->]]]].
    + exfalso. apply Hnot. apply keys_in. eauto.
    + exists room, (fst st0), (snd st0). split; auto.
      unfold tick_body in Hr'. cbn [fst] in Hr'. congruence.
  - pose proof (for_in_get_none tick_body (JsObj.keys (rooms s)) (rooms s)
                  (s_rng s, s_emitted s) roomId G0) as Hn.
    destruct (JsObj.for_in _ _ _ _) as [rooms' st]. cbn [rooms fst] in *. congruence.
Qed.

Lemma gameLoop_get_fwd s roomId room :
  JsObj.get (rooms s) roomId = Some room ->
  exists n out,
    JsObj.get (rooms (gameLoop s)) roomId =
    Some (w_room (tick_room roomId (mkWork room n out))).
Proof.
  unfold gameLoop. intros G0.
  destruct (@for_in_get _ _ tick_body (fun _ => True) (fun _ _ _ _ => I)
              (JsObj.keys (rooms s)) (rooms s) (s_rng s, s_emitted s) roomId room
              (keys_NoDup _) I G0) as [r' [Hr' Hcase]].
  destruct (JsObj.for_in _ _ _ _) as [rooms' st]. cbn [rooms fst] in *.
  destruct Hcase as [[Hnot _]|[_ [st0 [_ ->]]]].
  - exfalso. apply Hnot. apply keys_in. eauto.
  - exists (fst st0), (snd st0). exact Hr'.
Qed.

Lemma player_of_some socketId s roomId room player :
  player_of socketId s = Some (roomId, room, player) ->
  JsObj.get (rooms s) roomId = Some room /\
  JsObj.get (r_players room) socketId = Some player.
Proof.
  unfold player_of. intros H.
  destruct (JsObj.get (s_roomId s) socketId) as [r|]; [|discriminate].
  destruct (String.eqb r ""); [discriminate|].
  destruct (JsObj.get (rooms s) r) as [room0|] eqn:G; [|discriminate].
  destruct (JsObj.get (r_players room0) socketId) as [p|] eqn:Gp; [|discriminate].
  inversion H; subst. auto.
Qed.

(** The two ways [joinRoom] ends. *)
Lemma on_joinRoom_cases socketId roomId playerName s :
  (JsObj.get (rooms s) roomId = None /\ JsObj.inherited roomId = true /\
   on_joinRoom socketId roomId playerName s =
   mkServer (rooms s) (s_roomId s) (s_rng s) (s_emitted s)
            ((socketId, roomId) :: s_joined s)) \/
  ((JsObj.get (rooms s) roomId <> None \/ JsObj.inherited roomId = false) /\
   on_joinRoom socketId roomId playerName s =
   let (room, n1) :=
     match JsObj.get (rooms s) roomId with
     | Some room => (room, s_rng s)
     | None => createRoom (s_rng s)
     end in
   let (player, n2) := new_player socketId playerName n1 in
   mkServer
     (JsObj.set (rooms s) roomId
                (mkRoom (JsObj.set (r_players room) socketId player)
                        (r_food room) (r_tickCount room)))
     (JsObj.set (s_roomId s) socketId roomId)
     n2
     (s_emitted s ++ [mkEmit (ToSocket socketId) (roomJoined roomId MAP_SIZE)])
     ((socketId, roomId) :: s_joined s)).
Proof.
  unfold on_joinRoom, joinRoom_handler.
  destruct (JsObj.get (rooms s) roomId) as [room|] eqn:G.
  - right. split; [left; discriminate|]. reflexivity.
  - destruct (JsObj.inherited roomId) eqn:Hi.
    + left. auto.
    + right. split; [now right|].
      now destruct (createRoom (s_rng s)) as [room n1].
Qed.

Lemma step_ok s e : server_ok s -> server_ok (step s e).
Proof.
  intros Hs. destruct e as [sid rid name|sid angle|sid b|sid|]; cbn [step].
  - destruct (on_joinRoom_cases sid rid name s) as [(_ & _ & ->)|(_ & ->)];
      [exact Hs|].
    assert (room_ok (fst (match JsObj.get (rooms s) rid with
                          | Some room => (room, s_rng s)
                          | None => createRoom (s_rng s)
                          end))) as Hroom.
    { destruct (JsObj.get (rooms s) rid) eqn:G; [cbn; eauto | apply createRoom_ok]. }
    destruct (match JsObj.get (rooms s) rid with
              | Some room => (room, s_rng s) | None => createRoom (s_rng s) end)
      as [room n1].
    pose proof (new_player_ok sid name n1) as Hp.
    destruct (new_player sid name n1) as [player n2]. cbn [fst] in *.
    apply server_ok_set; auto. now apply room_ok_set.
  - unfold on_input. destruct (player_of sid s) as [[[rid room] player]|] eqn:P; auto.
    apply player_of_some in P. destruct P as [Gr Gp].
    apply server_ok_set; auto. apply room_ok_set; eauto.
    destruct (Hs _ _ Gr) as [Hps _]. apply (Hps _ _ Gp).
  - unfold on_boost. destruct (player_of sid s) as [[[rid room] player]|] eqn:P; auto.
    apply player_of_some in P. destruct P as [Gr Gp].
    apply server_ok_set; auto. apply room_ok_set; eauto.
    destruct (Hs _ _ Gr) as [Hps _]. apply (Hps _ _ Gp).
  - unfold on_disconnect. intros r room' G. cbn [rooms] in G.
    destruct (JsObj.get (s_roomId s) sid) as [rid|]; [|eauto].
    destruct (String.eqb rid ""); [eauto|].
    destruct (JsObj.get (rooms s) rid) as [room|] eqn:Gr; [|eauto].
    destruct (length (JsObj.keys (JsObj.delete (r_players room) sid)) =? 0)%nat.
    + apply get_delete_some in G. destruct G as [_ G]. eauto.
    + destruct (String.eqb_spec rid r) as [->|Hne].
      * rewrite get_set_same in G. inversion G; subst.
        apply room_ok_delete. eauto.
      * rewrite get_set_other in G by assumption. eauto.
  - intros r room' G. apply gameLoop_get in G.
    destruct G as (room & n & out & G & ->).
    apply tick_room_ok. cbn [w_room]. eauto.
Qed.

Lemma initial_ok : server_ok initial.
Proof. intros r room G. discriminate. Qed.

Lemma run_ok events : forall s, server_ok s -> server_ok (run events s).
Proof.
  unfold run. induction events as [|e events IH]; intros s Hs; simpl; auto.
  apply IH. now apply step_ok.
Qed.

Lemma reachable_ok events : server_ok (run events initial).
Proof. apply run_ok, initial_ok. Qed.

(** * One event, seen from one player and from one room *)

Lemma store_player_get sid rid room player s r room' id p' (e : Event) q :
  e <> interval ->
  JsObj.get (rooms s) rid = Some room ->
  JsObj.get (r_players room) sid = Some q ->
  p_body player = p_body q -> p_length player = p_length q ->
  JsObj.get (rooms (store_player sid rid room player s)) r = Some room' ->
  JsObj.get (r_players room') id = Some p' ->
  exists room0 p,
    JsObj.get (rooms s) r = Some room0 /\ JsObj.get (r_players room0) id = Some p /\
    body_step e p p'.
Proof.
  intros He Gr Gq Hb Hl G Gp. unfold store_player in G. cbn [rooms] in G.
  destruct (String.eqb_spec rid r) as [->|Hne].
  - rewrite get_set_same in G. inversion G; subst room'. cbn [r_players] in Gp.
    destruct (String.eqb_spec sid id) as [->|Hne'].
    + rewrite get_set_same in Gp. inversion Gp; subst p'.
      exists room, q. repeat split; auto. { lia. }
      destruct e; auto. congruence.
    + rewrite get_set_other in Gp by assumption.
      exists room, p'. repeat split; auto. destruct e; auto. congruence.
  - rewrite get_set_other in G by assumption.
    exists room', p'. repeat split; auto. destruct e; auto. congruence.
Qed.

Lemma step_player s e r id room' p' :
  joins id r e = false ->
  JsObj.get (rooms (step s e)) r = Some room' ->
  JsObj.get (r_players room') id = Some p' ->
  exists room p,
    JsObj.get (rooms s) r = Some room /\ JsObj.get (r_players room) id = Some p /\
    body_step e p p'.
Proof.
  intros Hj G Gp.
  destruct e as [sid rid name|sid angle|sid b|sid|]; cbn [step] in G.
  - destruct (on_joinRoom_cases sid rid name s) as [(_ & _ & E)|(_ & E)];
      rewrite E in G; clear E.
    { cbn [rooms] in G. exists room', p'. repeat split; auto. }
    destruct (JsObj.get (rooms s) rid) as [room0|] eqn:G0.
    + destruct (new_player sid name (s_rng s)) as [player n2]. cbn [rooms] in G.
      destruct (String.eqb_spec rid r) as [->|Hne].
      * rewrite get_set_same in G. inversion G; subst room'. cbn [r_players] in Gp.
        destruct (String.eqb_spec sid id) as [->|Hne'].
        { cbn in Hj. rewrite !String.eqb_refl in Hj. discriminate. }
        rewrite get_set_other in Gp by assumption.
        exists room0, p'. repeat split; auto.
      * rewrite get_set_other in G by assumption.
        exists room', p'. repeat split; auto.
    + destruct (createRoom (s_rng s)) as [room0 n1] eqn:C.
      destruct (new_player sid name n1) as [player n2]. cbn [rooms] in G.
      destruct (String.eqb_spec rid r) as [->|Hne].
      * rewrite get_set_same in G. inversion G; subst room'. cbn [r_players] in Gp.
        destruct (String.eqb_spec sid id) as [->|Hne'].
        { cbn in Hj. rewrite !String.eqb_refl in Hj. discriminate. }
        rewrite get_set_other in Gp by assumption.
        unfold createRoom in C. destruct (seed_food 100 [] (s_rng s)).
        inversion C; subst room0. discriminate.
      * rewrite get_set_other in G by assumption.
        exists room', p'. repeat split; auto.
  - unfold on_input in G.
    destruct (player_of sid s) as [[[rid room] player]|] eqn:P.
    + apply player_of_some in P. destruct P as [Gr Gq].
      eapply store_player_get
        with (q := player) (player := with_angle player angle); eauto.
      discriminate.
    + exists room', p'. repeat split; auto.
  - unfold on_boost in G.
    destruct (player_of sid s) as [[[rid room] player]|] eqn:P.
    + apply player_of_some in P. destruct P as [Gr Gq].
      eapply store_player_get
        with (q := player) (player := with_isBoosting player b); eauto.
      discriminate.
    + exists room', p'. repeat split; auto.
  - unfold on_disconnect in G. cbn [rooms] in G.
    assert (forall room0, JsObj.get (rooms s) r = Some room0 ->
                          JsObj.get (r_players room0) id = Some p' ->
                          exists room p, JsObj.get (rooms s) r = Some room /\
                                         JsObj.get (r_players room) id = Some p /\
                                         body_step (disconnect sid) p p') as Hsame.
    { intros room0 H1 H2. exists room0, p'. repeat split; auto. }
    destruct (JsObj.get (s_roomId s) sid) as [rid|]; [|eauto].
    destruct (String.eqb rid ""); [eauto|].
    destruct (JsObj.get (rooms s) rid) as [room|] eqn:Gr; [|eauto].
    destruct (length (JsObj.keys (JsObj.delete (r_players room) sid)) =? 0)%nat.
    + apply get_delete_some in G. destruct G as [_ G]. eauto.
    + destruct (String.eqb_spec rid r) as [->|Hne].
      * rewrite get_set_same in G. inversion G; subst room'. cbn [r_players] in Gp.
        apply get_delete_some in Gp. destruct Gp as [_ Gp]. eauto.
      * rewrite get_set_other in G by assumption. eauto.
  - apply gameLoop_get in G. destruct G as (room & n & out & G & ->).
    destruct (tick_room_closed r (mkWork room n out)) as (_ & _ & _ & Hget).
    cbn zeta in Hget. cbn [w_room w_rng] in Hget. rewrite Hget in Gp.
    destruct (in_dec string_dec id _) as [|_]; [discriminate|].
    apply moved_get_inv in Gp. destruct Gp as (p & food0 & m & Gp & _ & ->).
    exists room, p. repeat split; auto;
      destruct (player_turn_growth (r_tickCount room + 1) (mkTurn p food0 m))
        as (Hl & Hb & _); cbn zeta in *; cbn [t_player] in *; auto.
Qed.

(** A room that is there before and after an event has not lost food. *)
Lemma step_food s e r room room' :
  JsObj.get (rooms s) r = Some room ->
  JsObj.get (rooms (step s e)) r = Some room' ->
  (length (r_food room) <= length (r_food room'))%nat.
Proof.
  intros G0 G.
  assert (forall sid rid room1 player,
             JsObj.get (rooms s) rid = Some room1 ->
             JsObj.get (rooms (store_player sid rid room1 player s)) r = Some room' ->
             (length (r_food room) <= length (r_food room'))%nat) as Hstore.
  { intros sid rid room1 player Gr Gs. unfold store_player in Gs. cbn [rooms] in Gs.
    destruct (String.eqb_spec rid r) as [->|Hne].
    - rewrite get_set_same in Gs. inversion Gs; subst. cbn.
      assert (room1 = room) by congruence. subst. auto.
    - rewrite get_set_other in Gs by assumption.
      assert (room' = room) by congruence. subst. auto. }
  assert (JsObj.get (rooms s) r = Some room' ->
          (length (r_food room) <= length (r_food room'))%nat) as Hsame.
  { intros H. assert (room' = room) by congruence. subst. auto. }
  destruct e as [sid rid name|sid angle|sid b|sid|]; cbn [step] in G.
  - destruct (on_joinRoom_cases sid rid name s) as [(_ & _ & E)|(_ & E)];
      rewrite E in G; clear E; [auto|].
    destruct (String.eqb_spec rid r) as [->|Hne].
    + rewrite G0 in G. destruct (new_player sid name (s_rng s)) as [player n2].
      cbn [rooms] in G. rewrite get_set_same in G. inversion G; subst. cbn. auto.
    + destruct (match JsObj.get (rooms s) rid with
                | Some room1 => (room1, s_rng s) | None => createRoom (s_rng s) end)
        as [room1 n1].
      destruct (new_player sid name n1) as [player n2]. cbn [rooms] in G.
      rewrite get_set_other in G by assumption. auto.
  - unfold on_input in G.
    destruct (player_of sid s) as [[[rid room1] player]|] eqn:P; auto.
    apply player_of_some in P. destruct P as [Gr _]. eauto.
  - unfold on_boost in G.
    destruct (player_of sid s) as [[[rid room1] player]|] eqn:P; auto.
    apply player_of_some in P. destruct P as [Gr _]. eauto.
  - unfold on_disconnect in G. cbn [rooms] in G.
    destruct (JsObj.get (s_roomId s) sid) as [rid|]; auto.
    destruct (String.eqb rid ""); auto.
    destruct (JsObj.get (rooms s) rid) as [room1|] eqn:Gr; auto.
    destruct (length (JsObj.keys (JsObj.delete (r_players room1) sid)) =? 0)%nat.
    + apply get_delete_some in G. destruct G as [_ G]. auto.
    + destruct (String.eqb_spec rid r) as [->|Hne].
      * rewrite get_set_same in G. inversion G; subst. cbn.
        assert (room1 = room) by congruence. subst. auto.
      * rewrite get_set_other in G by assumption. auto.
  - apply gameLoop_get in G. destruct G as (room1 & n & out & G & ->).
    assert (room1 = room) by congruence. subst room1.
    destruct (tick_room_closed r (mkWork room n out)) as (Hf & _).
    cbn zeta in Hf. cbn [w_room w_rng] in Hf. rewrite Hf, length_app.
    destruct (moved_frame room n) as (_ & _ & Hlen). cbn zeta in Hlen. lia.
Qed.

(** * Executions *)

Lemma run_app events more s : run (events ++ more) s = run more (run events s).
Proof. unfold run. apply fold_left_app. Qed.

Lemma ticks_app events more : ticks (events ++ more) = (ticks events + ticks more)%nat.
Proof. unfold ticks. now rewrite filter_app, length_app. Qed.

(** A player that is in its room after the events [more], none of which is
    a join of its socket to that room, was there all along; its target
    length has not shrunk, and if it has not grown the body has gained one
    segment per tick up to the target length. *)
Lemma run_player more : forall s r id room' p',
  forallb (fun e => negb (joins id r e)) more = true ->
  JsObj.get (rooms (run more s)) r = Some room' ->
  JsObj.get (r_players room') id = Some p' ->
  exists room p,
    JsObj.get (rooms s) r = Some room /\ JsObj.get (r_players room) id = Some p /\
    (p_length p <= p_length p')%nat /\
    (p_length p' = p_length p ->
     (Nat.min (length (p_body p) + ticks more) (p_length p) <= length (p_body p'))%nat).
Proof.
  induction more as [|e more IH] using rev_ind; intros s r id room' p' Hj G Gp.
  - exists room', p'. repeat split; auto. intros _. unfold ticks. simpl. lia.
  - rewrite run_app in G. change (run [e] (run more s)) with (step (run more s) e) in G.
    rewrite forallb_app in Hj. apply andb_true_iff in Hj. destruct Hj as [Hj He].
    simpl in He. rewrite andb_true_r in He. apply negb_true_iff in He.
    destruct (step_player _ _ _ _ He G Gp) as (room1 & p1 & G1 & Gp1 & Hl1 & Hstep).
    destruct (IH s r id room1 p1 Hj G1 Gp1) as (room & p & G0 & Gp0 & Hl & Hbody).
    exists room, p. repeat split; auto; [lia|].
    intros Heq. assert (p_length p1 = p_length p) as Heq1 by lia.
    specialize (Hbody Heq1). rewrite ticks_app.
    assert (ticks [e] = match e with interval => 1 | _ => 0 end)%nat as ->
      by (destruct e; reflexivity).
    destruct e; [destruct Hstep as [Hb _]; rewrite Hb; lia .. | lia].
Qed.

Lemma check_food_length i : forall t,
  length (t_food (check_food i t)) = length (t_food t).
Proof.
  induction i as [|i IH]; intros t; simpl; auto.
  destruct (nth_error (t_food t) i) as [f|] eqn:N; auto.
  destruct (reaches (t_player t) f); auto.
  rewrite IH. cbn [t_food]. rewrite length_app. unfold splice1.
  assert (i < length (t_food t))%nat as Hi by (apply nth_error_Some; congruence).
  rewrite length_app, length_firstn, length_skipn. simpl. lia.
Qed.

Lemma handle_boosting_score tickCount t :
  p_score (t_player (snd (handle_boosting tickCount t))) =
  (p_score (t_player t) - boost_cost tickCount (t_player t))%Z.
Proof.
  unfold handle_boosting, boost_cost.
  destruct (p_isBoosting (t_player t) && (10 <? p_score (t_player t))%Z);
    cbn [andb]; [|simpl; lia].
  destruct (Z.rem tickCount 5 =? 0)%Z; [|simpl; lia].
  destruct (tail_of (p_body (t_player t))); simpl; lia.
Qed.

Lemma player_turn_score tickCount t :
  exists k : nat,
    p_score (t_player (player_turn tickCount t)) =
    (p_score (t_player t) - boost_cost tickCount (t_player t) + 10 * Z.of_nat k)%Z.
Proof.
  rewrite player_turn_closed. cbn [t_player]. eexists.
  unfold fed. cbn [p_score with_score]. 
  change (p_score (update_body (move_head ?s ?p))) with (p_score p).
  rewrite handle_boosting_score. reflexivity.
Qed.

(** * Binary64 facts *)

Lemma SFcompare_antisym x y :
  SFcompare y x = match SFcompare x y with Some c => Some (CompOpp c) | None => None end.
Proof.
  destruct x as [sx|sx| |sx mx ex], y as [sy|sy| |sy my ey]; simpl; auto;
    try (destruct sx; reflexivity); try (destruct sy; reflexivity);
    try (destruct sx, sy; reflexivity).
  destruct sx, sy; simpl; auto.
  - rewrite (Z.compare_antisym ex ey).
    destruct (ex ?= ey)%Z; simpl; auto.
    f_equal. f_equal. exact (Pos.compare_antisym mx my).
  - rewrite (Z.compare_antisym ex ey).
    destruct (ex ?= ey)%Z; simpl; auto.
    f_equal. exact (Pos.compare_antisym mx my).
Qed.

Lemma is_nan_spec x :
  is_nan x = match Prim2SF x with S754_nan => true | _ => false end.
Proof.
  unfold is_nan. rewrite eqb_spec. unfold SFeqb.
  destruct (Prim2SF x) as [s|s| |s m e]; simpl; auto; try (destruct s; reflexivity).
  destruct s; rewrite Z.compare_refl, Pos.compare_cont_refl; reflexivity.
Qed.

Lemma is_infinity_spec x :
  is_infinity x = match Prim2SF x with S754_infinity _ => true | _ => false end.
Proof.
  unfold is_infinity. rewrite eqb_spec, abs_spec.
  change (Prim2SF infinity) with (S754_infinity false).
  destruct (Prim2SF x) as [s|s| |s m e]; reflexivity.
Qed.

Lemma is_zero_spec x :
  is_zero x = match Prim2SF x with S754_zero _ => true | _ => false end.
Proof.
  unfold is_zero. rewrite eqb_spec.
  change (Prim2SF zero) with (S754_zero false).
  destruct (Prim2SF x) as [s|s| |s m e]; try reflexivity; destruct s; reflexivity.
Qed.

(** On numbers, [a < b] false means [b <= a]. *)
Lemma ltb_false_leb a b :
  is_nan a = false -> is_nan b = false -> (a <? b) = false -> (b <=? a) = true.
Proof.
  rewrite !is_nan_spec, ltb_spec, leb_spec. unfold SFltb, SFleb.
  rewrite (SFcompare_antisym (Prim2SF a) (Prim2SF b)).
  destruct (SFcompare (Prim2SF a) (Prim2SF b)) as [[| |]|] eqn:C; simpl; auto.
  destruct (Prim2SF a) as [sx|sx| |sx mx ex], (Prim2SF b) as [sy|sy| |sy my ey];
    simpl in *; congruence.
Qed.

Lemma ltb_nan_l v b : is_nan v = true -> (v <? b) = false.
Proof.
  rewrite is_nan_spec, ltb_spec. unfold SFltb.
  destruct (Prim2SF v); try discriminate. reflexivity.
Qed.

Lemma ltb_nan_r v b : is_nan v = true -> (b <? v) = false.
Proof.
  rewrite is_nan_spec, ltb_spec. unfold SFltb.
  destruct (Prim2SF v); try discriminate. now destruct (Prim2SF b).
Qed.

(** "Boundary checks" leave NaN alone and bring every number into the arena. *)
Lemma clamp_nan v : is_nan v = true -> clamp v = v.
Proof.
  intros H. unfold clamp. rewrite (@ltb_nan_l v MAP_MIN H).
  now rewrite (@ltb_nan_r v MAP_MAX H).
Qed.

Lemma clamp_bounds v :
  is_nan v = false -> (MAP_MIN <=? clamp v) = true /\ (clamp v <=? MAP_MAX) = true.
Proof.
  intros H. unfold clamp.
  destruct (v <? MAP_MIN) eqn:E1.
  - split; reflexivity.
  - destruct (MAP_MAX <? v) eqn:E2.
    + split; reflexivity.
    + split; apply ltb_false_leb; auto.
Qed.

Lemma SFeqb_finite s m e y :
  SFeqb (S754_finite s m e) y = true -> y = S754_finite s m e.
Proof.
  unfold SFeqb. destruct y as [sy|sy| |sy my ey]; simpl;
    try discriminate; try (destruct s; discriminate); try (destruct sy; discriminate).
  destruct s, sy; try discriminate;
    destruct (e ?= ey)%Z eqn:E; try discriminate;
    apply Z.compare_eq in E; subst ey;
    destruct (PosDef.Pos.compare_cont Eq m my) eqn:M; try discriminate;
    apply Pos.compare_eq in M; subst my; reflexivity.
Qed.

Lemma SFeqb_zero s y :
  SFeqb (S754_zero s) y = true -> exists s', y = S754_zero s'.
Proof.
  unfold SFeqb. destruct y as [sy|sy| |sy my ey]; simpl;
    try discriminate; try (destruct sy; discriminate).
  eauto.
Qed.

Lemma SF_lerp_fixed sx st :
  match sx with S754_nan | S754_infinity _ => False | _ => True end ->
  SFeqb sx st = true ->
  SFeqb (SF_lerp sx st) sx = true /\
  (match sx with S754_zero _ => False | _ => True end -> SF_lerp sx st = sx).
Proof.
  unfold SF_lerp.
  change (Prim2SF lerpFactor) with (S754_finite false 7205759403792794 (-56)).
  destruct sx as [s|s| |s m e]; intros Hfin He; try contradiction.
  - apply SFeqb_zero in He. destruct He as [s' ->].
    split; [|contradiction]. destruct s, s'; reflexivity.
  - apply SFeqb_finite in He. rewrite He.
    assert (SF64sub (S754_finite s m e) (S754_finite s m e) = S754_zero false) as ->.
    { unfold SF64sub, SFsub. rewrite Z.sub_diag. reflexivity. }
    cbn [SF64mul SFmul xorb SF64add SFadd].
    split; auto.
    unfold SFeqb. simpl.
    destruct s; rewrite Z.compare_refl, Pos.compare_cont_refl; reflexivity.
Qed.

(** One frame of interpolation towards an equal target: the value stays,
    and stays bit for bit unless it is a zero. *)
Lemma lerp_fixed x t :
  is_finite x = true -> (x =? t) = true ->
  (x + (t - x) * lerpFactor =? x) = true /\
  (is_zero x = false -> x + (t - x) * lerpFactor = x).
Proof.
  unfold is_finite. rewrite negb_true_iff, orb_false_iff.
  rewrite is_nan_spec, is_infinity_spec, is_zero_spec, !eqb_spec.
  intros [Hn Hi] He.
  assert (Prim2SF (x + (t - x) * lerpFactor) = SF_lerp (Prim2SF x) (Prim2SF t)) as R
    by (now rewrite add_spec, mul_spec, sub_spec).
  rewrite R.
  destruct (SF_lerp_fixed (Prim2SF x) (Prim2SF t)) as [H1 H2]; auto.
  { destruct (Prim2SF x); auto; discriminate. }
  split; auto. intros Hz. apply Prim2SF_inj. rewrite R. apply H2.
  destruct (Prim2SF x); auto; discriminate.
Qed.

(** * The client's loops *)

Lemma approach_other id t ps k :
  k <> id -> JsObj.get (snd (approach id t ps)) k = JsObj.get ps k.
Proof.
  intros Hne. unfold approach.
  destruct (JsObj.get ps id) as [[|p]|]; cbn [snd]; auto;
    now rewrite get_set_other.
Qed.

(** The first loop of [update] visits every target once and touches, for
    each identifier, the local entry and the target of that identifier only. *)
Lemma approach_loop ids : forall target ps,
  NoDup ids ->
  forall id,
    (~ In id ids ->
     JsObj.get (fst (JsObj.for_in approach ids target ps)) id = JsObj.get target id /\
     JsObj.get (snd (JsObj.for_in approach ids target ps)) id = JsObj.get ps id) /\
    (In id ids -> forall t, JsObj.get target id = Some t ->
     JsObj.get (fst (JsObj.for_in approach ids target ps)) id =
       Some (fst (approach id t ps)) /\
     JsObj.get (snd (JsObj.for_in approach ids target ps)) id =
       JsObj.get (snd (approach id t ps)) id).
Proof.
  induction ids as [|k ids IH]; intros target ps Hnd id.
  - simpl. split; [auto | contradiction].
  - inversion Hnd as [|? ? Hnotin Hnd']; subst. cbn [JsObj.for_in].
    destruct (JsObj.get target k) as [t0|] eqn:G0.
    + destruct (approach k t0 ps) as [t0' ps'] eqn:Ap.
      destruct (IH (JsObj.set target k t0') ps' Hnd' id) as [IHout IHin].
      destruct (String.eqb_spec k id) as [->|Hne].
      * split; [intros H; exfalso; apply H; now left|].
        intros _ t Ht. assert (t0 = t) by congruence. subst t0.
        destruct (IHout Hnotin) as [H1 H2]. rewrite H1, H2, get_set_same, Ap.
        auto.
      * assert (JsObj.get ps' id = JsObj.get ps id) as Hps.
        { pose proof (@approach_other k t0 ps id) as H. rewrite Ap in H.
          apply H. congruence. }
        split.
        -- intros H. destruct IHout as [H1 H2]; [intros Hin; apply H; now right|].
           rewrite H1, H2, get_set_other by assumption. auto.
        -- intros [Heq|Hin] t Ht; [contradiction|].
           rewrite get_set_other in IHin by assumption.
           destruct (IHin Hin t Ht) as [H1 H2]. rewrite H1, H2.
           unfold approach. rewrite Hps.
           destruct (JsObj.get ps id) as [[|q]|] eqn:Gp; cbn [fst snd]; split; auto;
             rewrite ?get_set_same; congruence.
    + destruct (IH target ps Hnd' id) as [IHout IHin]. split.
      * intros H. apply IHout. intros Hin. apply H. now right.
      * intros [->|Hin] t Ht; [congruence|]. now apply IHin.
Qed.

Lemma forget_keeps target ps id t :
  JsObj.get target id = Some t -> JsObj.get (forget target ps) id = JsObj.get ps id.
Proof.
  intros Ht. unfold forget. generalize (JsObj.keys ps). intros l.
  revert ps. induction l as [|k l IH]; intros ps; simpl; auto.
  rewrite IH. destruct (JsObj.get target k) eqn:G; auto.
  apply get_delete_other. intros ->. congruence.
Qed.

(** What [update] does to the object rendered for a player the latest
    snapshot still has: one round of interpolation towards its target. *)
Lemma update_rendered c id p t :
  rendered (players c) (targetPlayers c) id = Some p ->
  JsObj.get (targetPlayers c) id = Some t ->
  rendered (players (update c)) (targetPlayers (update c)) id = Some (interpolate p t).
Proof.
  intros Hr Ht. unfold update.
  assert (In id (JsObj.keys (targetPlayers c))) as Hin by (apply keys_in; eauto).
  destruct (@approach_loop _ (targetPlayers c) (players c)
              (keys_NoDup (targetPlayers c)) id) as [_ Hloop].
  destruct (Hloop Hin t Ht) as [H1 H2]. clear Hloop.
  destruct (JsObj.for_in approach _ _ _) as [target1 players1].
  cbn [fst snd players targetPlayers] in *.
  unfold rendered. rewrite (@forget_keeps _ players1 id _ H1), H2, H1.
  unfold rendered in Hr. unfold approach.
  destruct (JsObj.get (players c) id) as [[|q]|] eqn:G; try discriminate.
  - cbn [fst snd]. rewrite G. congruence.
  - cbn [fst snd]. rewrite get_set_same. congruence.
Qed.

(** * The registry of rooms *)

(** A tick removes no room, whatever happens to its players. *)
Lemma gameLoop_keeps_rooms s roomId room :
  JsObj.get (rooms s) roomId = Some room ->
  exists room', JsObj.get (rooms (gameLoop s)) roomId = Some room'.
Proof.
  intros G.
  assert (In roomId (map fst (rooms (gameLoop s)))) as Hin.
  { unfold gameLoop.
    pose proof (for_in_fst tick_body (JsObj.keys (rooms s)) (rooms s)
                  (s_rng s, s_emitted s)) as Hk.
    destruct (JsObj.for_in _ _ _ _) as [rooms' st]. cbn [rooms fst] in *.
    rewrite Hk. apply get_in_fst. eauto. }
  now apply get_in_fst in Hin.
Qed.

Lemma keys_singleton (A : Type) k (v : A) : JsObj.keys [(k, v)] = [k].
Proof.
  unfold JsObj.keys, JsObj.enumerate, JsObj.string_keys. simpl.
  now destruct (JsObj.array_index k).
Qed.

(** The disconnect of a room's last player deletes the room, and the next
    join with the same identifier creates a room anew: counter 0, no other
    player, and 100 foods drawn then.  (With the room gone, an inherited
    property of that name would show through.) *)
Lemma last_disconnect_deletes_the_room s socketId roomId room :
  JsObj.get (s_roomId s) socketId = Some roomId -> roomId <> ""%string ->
  JsObj.inherited roomId = false ->
  JsObj.get (rooms s) roomId = Some room ->
  JsObj.keys (JsObj.delete (r_players room) socketId) = [] ->
  JsObj.get (rooms (on_disconnect socketId s)) roomId = None /\
  forall socketId' playerName,
  exists room',
    JsObj.get (rooms (on_joinRoom socketId' roomId playerName
                                  (on_disconnect socketId s))) roomId = Some room' /\
    r_tickCount room' = 0%Z /\
    r_food room' = fst (seed_food 100 [] (s_rng s)) /\
    length (r_food room') = 100%nat /\
    JsObj.keys (r_players room') = [socketId'].
Proof.
  intros Hsock Hne Hown Hroom Hlast.
  assert (JsObj.get (rooms (on_disconnect socketId s)) roomId = None) as Hgone.
  { unfold on_disconnect. cbn [rooms]. rewrite Hsock.
    destruct (String.eqb_spec roomId "") as [->|_]; [congruence|].
    rewrite Hroom, Hlast. cbn. apply get_delete_same. }
  split; auto.
  intros socketId' playerName.
  destruct (on_joinRoom_cases socketId' roomId playerName (on_disconnect socketId s))
    as [(_ & Hi & _)|(_ & ->)]; [congruence|].
  rewrite Hgone.
  assert (s_rng (on_disconnect socketId s) = s_rng s) as -> by reflexivity.
  unfold createRoom.
  pose proof (seed_food_length 100 [] (s_rng s)) as Hlen.
  destruct (seed_food 100 [] (s_rng s)) as [food0 n1]. cbn [fst] in *.
  destruct (new_player socketId' playerName n1) as [player n2].
  cbn [rooms]. rewrite get_set_same. eexists. split; [reflexivity|].
  cbn [r_tickCount r_food r_players JsObj.empty JsObj.set].
  repeat split; auto. apply keys_singleton.
Qed.

(** * Membership of socket.io rooms *)

Lemma joinRoom_throws socketId roomId playerName s :
  throws (joinRoom_handler socketId roomId playerName s) =
  match JsObj.get (rooms s) roomId with
  | Some _ => false
  | None => JsObj.inherited roomId
  end.
Proof.
  unfold joinRoom_handler.
  destruct (JsObj.get (rooms s) roomId); [reflexivity|].
  destruct (JsObj.inherited roomId); [reflexivity|].
  now destruct (createRoom (s_rng s)).
Qed.

Lemma not_inherited_returns socketId roomId playerName s :
  JsObj.inherited roomId = false ->
  throws (joinRoom_handler socketId roomId playerName s) = false.
Proof.
  intros H. rewrite joinRoom_throws, H. now destruct (JsObj.get (rooms s) roomId).
Qed.





(** * The claims *)

(** C1 (as amended).  A player is marked dead in a tick exactly when, with
    every player of the room advanced by its own turn of this tick (head
    moved and clamped, new head prepended to the body, tail trimmed), its
    head is less than 10 units from a segment of another player's body.
    The bodies tested are the moved ones, not those from before the tick;
    since [advance] reads nothing but the player's own state, the marking
    depends neither on the order in which players are processed nor on any
    death of the same tick. *)
Theorem dead_marking_uses_moved_bodies room n id :
  In id (deadPlayers (r_players (fst (moved room n)))) <->
  exists p other q seg,
    JsObj.get (r_players room) id = Some p /\ other <> id /\
    JsObj.get (r_players room) other = Some q /\
    In seg (p_body (advance q)) /\
    (Math_hypot (p_x (advance p) - s_x seg) (p_y (advance p) - s_y seg) <? 10) = true.
Proof.
  rewrite deadPlayers_spec. split.
  - intros (p' & Gp' & Hdead). apply is_dead_spec in Hdead.
    destruct Hdead as (other & q' & seg & Hne & Gq' & Hseg & Ht).
    apply moved_get_inv in Gp'. destruct Gp' as (p & fp & np & Gp & _ & ->).
    apply moved_get_inv in Gq'. destruct Gq' as (q & fq & nq & Gq & _ & ->).
    destruct (player_turn_advance (r_tickCount room + 1) (mkTurn p fp np))
      as (Hx & Hy & _).
    destruct (player_turn_advance (r_tickCount room + 1) (mkTurn q fq nq))
      as (_ & _ & Hb).
    cbn zeta in *. cbn [t_player] in *.
    exists p, other, q, seg. repeat split; auto.
    + now rewrite <- Hb.
    + unfold touches in Ht. now rewrite Hx, Hy in Ht.
  - intros (p & other & q & seg & Gp & Hne & Gq & Hseg & Ht).
    destruct (moved_get room n id Gp) as (fp & np & _ & Gp').
    destruct (moved_get room n other Gq) as (fq & nq & _ & Gq').
    destruct (player_turn_advance (r_tickCount room + 1) (mkTurn p fp np))
      as (Hx & Hy & _).
    destruct (player_turn_advance (r_tickCount room + 1) (mkTurn q fq nq))
      as (_ & _ & Hb).
    cbn zeta in *. cbn [t_player] in *.
    eexists. split; [exact Gp'|]. apply is_dead_spec.
    exists other. eexists. exists seg. repeat split; eauto.
    + now rewrite Hb.
    + unfold touches. now rewrite Hx, Hy.
Qed.

(** C2 (as amended).  For a player whose boosting flag is set when its turn
    starts: with a score of 10 or less the flag is cleared in that turn and
    nothing is deducted; with a score above 10 the flag stays set (also when
    this turn's deduction brings the score to 10: the flag is then cleared
    by the next tick's turn), exactly 1 point is deducted when the room's
    tick counter is divisible by 5, with one food of the player's color
    pushed at the tail position plus a random offset in each axis, and
    nothing is deducted on the other ticks; the score after boosting is
    never below 10, let alone 0.  The rest of the turn leaves the flag as
    "Handle Boosting" left it. *)
Theorem boost_economy tickCount t :
  p_isBoosting (t_player t) = true ->
  let player := t_player t in
  let r := handle_boosting tickCount t in
  let player' := t_player (snd r) in
  ((p_score player <= 10)%Z ->
   p_isBoosting player' = false /\ p_score player' = p_score player /\
   fst r = SPEED /\ t_food (snd r) = t_food t) /\
  ((10 < p_score player)%Z ->
   p_isBoosting player' = true /\ fst r = BOOST_SPEED /\
   (10 <= p_score player')%Z /\
   (Z.rem tickCount 5 = 0%Z ->
    p_score player' = (p_score player - 1)%Z /\
    match tail_of (p_body player) with
    | Some tail =>
        t_food (snd r) =
        t_food t ++ [mkFood (s_x tail + (random (t_rng t) * 10 - 5))
                            (s_y tail + (random (t_rng t + 1) * 10 - 5))
                            (p_color player)]
    | None => t_food (snd r) = t_food t
    end) /\
   (Z.rem tickCount 5 <> 0%Z ->
    p_score player' = p_score player /\ t_food (snd r) = t_food t)) /\
  p_isBoosting (t_player (player_turn tickCount t)) = p_isBoosting player'.
Proof.
  intros Hb. cbn zeta.
  split; [|split]; [| |now rewrite player_turn_closed].
  all: unfold handle_boosting; rewrite Hb; cbn [andb].
  - intros Hle. apply Z.ltb_ge in Hle. rewrite Hle. cbn. auto.
  - intros Hlt. pose proof Hlt as Hlt'. apply Z.ltb_lt in Hlt'. rewrite Hlt'.
    destruct (Z.rem tickCount 5 =? 0)%Z eqn:E.
    + apply Z.eqb_eq in E.
      destruct (tail_of (p_body (t_player t))) as [tail|];
        cbn [fst snd t_player t_food p_isBoosting p_score with_score];
        repeat split; auto; try lia; intros Hne; contradiction.
    + apply Z.eqb_neq in E. cbn [fst snd].
      repeat split; auto; try lia; intros He; contradiction.
Qed.

(** C4 (as amended).  When a player's turn reaches "Check food collision",
    the player picks up every food then in the room's list that is less than
    20 units from its moved head: target length +1 and score +10 per food,
    each replaced by one new food pushed at the end of the list.  A food
    picked up leaves the list at once, so the players whose turn comes later
    in the same tick do not find it: a food goes to the first player in
    processing order that reaches it, and what a later player finds within
    reach of the same spot is a replacement. *)
Theorem pickups_go_to_the_first tickCount t :
  let t1 := snd (handle_boosting tickCount t) in
  let q := update_body (move_head (speed_of (t_player t)) (t_player t1)) in
  let k := length (filter (reaches q) (t_food t1)) in
  let t' := player_turn tickCount t in
  p_length (t_player t') = (p_length (t_player t) + k)%nat /\
  p_score (t_player t') = (p_score (t_player t1) + 10 * Z.of_nat k)%Z /\
  t_food t' =
    filter (fun f => negb (reaches q f)) (t_food t1) ++ fresh_food k (t_rng t1) /\
  (forall f, In f (t_food t1) -> reaches q f = true ->
             In f (t_food t') -> In f (fresh_food k (t_rng t1))).
Proof.
  cbn zeta. rewrite player_turn_closed. cbn [t_player t_food].
  destruct (handle_boosting_frame tickCount t) as (_ & _ & _ & Hl & _).
  cbn zeta in Hl.
  unfold fed. cbn [p_length p_score with_score with_length].
  repeat split.
  - cbn. now rewrite Hl.
  - intros f _ Hr Hin. apply in_app_or in Hin. destruct Hin as [Hin|Hin]; auto.
    apply filter_In in Hin. destruct Hin as [_ Hn]. rewrite Hr in Hn. discriminate.
Qed.

(** C5.  In every state the server can reach, every player of every room
    has a body no longer than its target length whose first segment is the
    player's current position; and from such a state on, once the events
    that follow contain at least target-length ticks, with the player still
    in the room, not joined anew, and its target length unchanged (no
    growth), the body is exactly target-length segments long. *)
Theorem body_follows_target_length events r room id p :
  JsObj.get (rooms (run events initial)) r = Some room ->
  JsObj.get (r_players room) id = Some p ->
  (length (p_body p) <= p_length p)%nat /\
  hd_error (p_body p) = Some (mkSegment (p_x p) (p_y p)) /\
  (forall more room' p',
      forallb (fun e => negb (joins id r e)) more = true ->
      JsObj.get (rooms (run more (run events initial))) r = Some room' ->
      JsObj.get (r_players room') id = Some p' ->
      p_length p' = p_length p ->
      (p_length p <= ticks more)%nat ->
      length (p_body p') = p_length p').
Proof.
  intros G Gp.
  destruct (reachable_ok events r G) as [Hps _].
  destruct (Hps id p Gp) as (Hlen & Hhd & _ & _).
  repeat split; auto.
  intros more room' p' Hj G' Gp' Heq Hticks.
  destruct (run_player more _ r id Hj G' Gp') as (room0 & p0 & G0 & Gp0 & _ & Hbody).
  assert (room0 = room) by congruence. subst room0.
  assert (p0 = p) by congruence. subst p0.
  specialize (Hbody Heq).
  rewrite <- run_app in G'.
  destruct (reachable_ok (events ++ more) r G') as [Hps' _].
  destruct (Hps' id p' Gp') as (Hlen' & _).
  lia.
Qed.

(** C6.  A room of a reachable state holds at least the 100 foods it was
    seeded with; no event lowers the food count of a room that is there
    before and after it; and "Check food collision" leaves the count
    unchanged, every food eaten being replaced by one new food in the same
    round of the loop. *)
Theorem food_count_never_decreases events r room :
  JsObj.get (rooms (run events initial)) r = Some room ->
  (100 <= length (r_food room))%nat /\
  (forall e room',
      JsObj.get (rooms (step (run events initial) e)) r = Some room' ->
      (length (r_food room) <= length (r_food room'))%nat) /\
  (forall player i n,
      length (t_food (check_food i (mkTurn player (r_food room) n))) =
      length (r_food room)).
Proof.
  intros G. destruct (reachable_ok events r G) as [_ Hf].
  repeat split; auto.
  - intros e room' G'. eapply step_food; eauto.
  - intros player i n. now rewrite check_food_length.
Qed.


(** C8 (as amended).  "Move head" followed by "Boundary checks", for any
    speed: each coordinate is the clamped sum of the old coordinate and
    speed times the cosine (for x) or sine (for y) of the heading, each axis
    on its own; a coordinate that is a number lies in
    [-MAP_SIZE/2, MAP_SIZE/2], and a coordinate is NaN after the boundary
    checks exactly when it was NaN before them (both comparisons of the
    checks are false on NaN).  The position a player has after its turn of
    a tick is the one this step gives at the speed "Handle Boosting" chose. *)
Theorem position_clamped_unless_nan speed p :
  let x := p_x p + Math_cos (p_angle p) * speed in
  let y := p_y p + Math_sin (p_angle p) * speed in
  let p' := move_head speed p in
  (p_x p' = clamp x /\ p_y p' = clamp y) /\
  (is_nan (p_x p') = false ->
   (MAP_MIN <=? p_x p') = true /\ (p_x p' <=? MAP_MAX) = true) /\
  (is_nan (p_y p') = false ->
   (MAP_MIN <=? p_y p') = true /\ (p_y p' <=? MAP_MAX) = true) /\
  (is_nan (p_x p') = is_nan x /\ is_nan (p_y p') = is_nan y) /\
  (forall tickCount t,
      p_x (t_player (player_turn tickCount t)) =
        p_x (move_head (speed_of (t_player t)) (t_player t)) /\
      p_y (t_player (player_turn tickCount t)) =
        p_y (move_head (speed_of (t_player t)) (t_player t))).
Proof.
  cbn zeta. cbn [move_head p_x p_y with_pos].
  set (x := p_x p + Math_cos (p_angle p) * speed).
  set (y := p_y p + Math_sin (p_angle p) * speed).
  assert (forall v, is_nan (clamp v) = is_nan v) as Hnan.
  { intros v. destruct (is_nan v) eqn:E.
    - now rewrite clamp_nan.
    - destruct (clamp_bounds v E) as [H _].
      destruct (is_nan (clamp v)) eqn:E'; auto.
      rewrite leb_spec in H. rewrite is_nan_spec in E'.
      destruct (Prim2SF (clamp v)); try discriminate;
        unfold SFleb in H; now destruct (Prim2SF MAP_MIN). }
  split; [split; reflexivity|].
  split; [intros H; rewrite Hnan in H; now apply clamp_bounds|].
  split; [intros H; rewrite Hnan in H; now apply clamp_bounds|].
  split; [split; apply Hnan|].
  intros tickCount t.
  destruct (player_turn_advance tickCount t) as (Hx & Hy & _).
  cbn zeta in *. rewrite Hx, Hy. split; reflexivity.
Qed.

(** C9.  For a player the client renders and the latest snapshot still
    has, whose rendered position is a finite number on each axis and equals
    the snapshot's: after [update()] the player is still rendered and its
    position is equal to what it was on each axis, and bit for bit the same
    on an axis where the coordinate is not zero. *)
Theorem equal_target_is_a_fixed_point c id p t :
  rendered (players c) (targetPlayers c) id = Some p ->
  JsObj.get (targetPlayers c) id = Some t ->
  is_finite (p_x p) = true -> is_finite (p_y p) = true ->
  (p_x p =? p_x t) = true -> (p_y p =? p_y t) = true ->
  exists p',
    rendered (players (update c)) (targetPlayers (update c)) id = Some p' /\
    (p_x p' =? p_x p) = true /\ (p_y p' =? p_y p) = true /\
    (is_zero (p_x p) = false -> p_x p' = p_x p) /\
    (is_zero (p_y p) = false -> p_y p' = p_y p).
Proof.
  intros Hr Ht Hfx Hfy Hex Hey.
  exists (interpolate p t). split; [now apply update_rendered|].
  destruct (lerp_fixed Hfx Hex) as [Hx1 Hx2].
  destruct (lerp_fixed Hfy Hey) as [Hy1 Hy2].
  cbn [interpolate p_x p_y]. auto.
Qed.

(** C10.  A new player starts with score 100; over one turn of the game
    loop the score changes by minus the boost cost, which is 1 only when
    the player is boosting with a score above 10 on a tick divisible by 5
    and 0 otherwise, plus 10 for each food picked up; and in every state
    the server can reach every player of every room has a score of at
    least 10. *)
Theorem score_at_least_ten events r room id p :
  JsObj.get (rooms (run events initial)) r = Some room ->
  JsObj.get (r_players room) id = Some p ->
  (10 <= p_score p)%Z /\
  (forall socketId playerName n,
      p_score (fst (new_player socketId playerName n)) = 100%Z) /\
  (forall tickCount food0 n,
      exists k : nat,
        p_score (t_player (player_turn tickCount (mkTurn p food0 n))) =
        (p_score p - boost_cost tickCount p + 10 * Z.of_nat k)%Z /\
        (boost_cost tickCount p = 1%Z \/ boost_cost tickCount p = 0%Z) /\
        (boost_cost tickCount p = 1%Z -> (10 < p_score p)%Z)).
Proof.
  intros G Gp. destruct (reachable_ok events r G) as [Hps _].
  destruct (Hps id p Gp) as (_ & _ & _ & Hs).
  repeat split; auto.
  intros tickCount food0 n.
  destruct (player_turn_score tickCount (mkTurn p food0 n)) as [k Hk].
  cbn [t_player] in Hk. exists k. split; auto.
  unfold boost_cost.
  destruct (p_isBoosting p); cbn [andb]; [|split; [auto | discriminate]].
  destruct (10 <? p_score p)%Z eqn:E; cbn [andb]; [|split; [auto | discriminate]].
  apply Z.ltb_lt in E.
  destruct (Z.rem tickCount 5 =? 0)%Z; split; auto; discriminate.
Qed.

(** * Further properties of the server and the client *)

(** ** Rooms and their seeding *)

Lemma seed_food_closed k : forall food0 n,
  seed_food k food0 n = (food0 ++ fresh_food k n, (n + 3 * k)%nat).
Proof.
  induction k as [|k IH]; intros food0 n.
  - simpl. unfold fresh_food. simpl. now rewrite app_nil_r, Nat.add_0_r.
  - cbn [seed_food]. rewrite fresh_food_S. unfold generateFood.
    rewrite IH. cbn [fst]. rewrite <- app_assoc. cbn [app].
    f_equal. lia.
Qed.

(** X1.  [createRoom] makes a room with no player, tick counter 0 and
    exactly 100 foods, the results of 100 successive calls of
    [generateFood()] (three random numbers each, in the order x, y, hue),
    and so draws 300 random numbers. *)
Theorem createRoom_seeds_a_hundred n :
  createRoom n = (mkRoom (JsObj.empty Player) (fresh_food 100 n) 0, (n + 300)%nat) /\
  length (fresh_food 100 n) = 100%nat /\
  (forall i, (i < 100)%nat ->
     nth_error (fresh_food 100 n) i =
     Some (mkFood (random (n + 3 * i) * MAP_SIZE - MAP_SIZE / 2)
                  (random (n + 3 * i + 1) * MAP_SIZE - MAP_SIZE / 2)
                  (Hsl (random (n + 3 * i + 2) * 360)))).
Proof.
  split; [|split].
  - unfold createRoom. rewrite seed_food_closed. reflexivity.
  - unfold fresh_food. now rewrite length_map, length_seq.
  - intros i Hi. unfold fresh_food.
    rewrite nth_error_map, nth_error_seq.
    destruct (Nat.ltb_spec i 100) as [_|Hge]; [|lia]. reflexivity.
Qed.

(** ** Joining *)


(** ** Intents *)

Lemma set_set (A : Type) (o : JsObj.t A) k v1 v2 :
  JsObj.set (JsObj.set o k v1) k v2 = JsObj.set o k v2.
Proof.
  induction o as [|[k' v'] o IH]; simpl.
  - now rewrite String.eqb_refl.
  - destruct (String.eqb k k') eqn:E; simpl; rewrite E; [reflexivity|].
    now rewrite IH.
Qed.

Lemma player_of_inv socketId s roomId room player :
  player_of socketId s = Some (roomId, room, player) <->
  JsObj.get (s_roomId s) socketId = Some roomId /\ roomId <> ""%string /\
  JsObj.get (rooms s) roomId = Some room /\
  JsObj.get (r_players room) socketId = Some player.
Proof.
  unfold player_of. split.
  - intros H.
    destruct (JsObj.get (s_roomId s) socketId) as [r|]; [|discriminate].
    destruct (String.eqb_spec r "") as [|Hne]; [discriminate|].
    destruct (JsObj.get (rooms s) r) as [room0|] eqn:G; [|discriminate].
    destruct (JsObj.get (r_players room0) socketId) as [p|] eqn:Gp; [|discriminate].
    inversion H; subst. auto.
  - intros (H1 & H2 & H3 & H4). rewrite H1.
    destruct (String.eqb_spec roomId "") as [|_]; [contradiction|].
    now rewrite H3, H4.
Qed.

Lemma intent_intent f g socketId s :
  intent g socketId (intent f socketId s) = intent (fun p => g (f p)) socketId s.
Proof.
  unfold intent at 2 3.
  destruct (player_of socketId s) as [[[rid room] p]|] eqn:P.
  - apply player_of_inv in P. destruct P as (H1 & H2 & H3 & H4).
    unfold intent.
    assert (player_of socketId (store_player socketId rid room (f p) s) =
            Some (rid,
                  mkRoom (JsObj.set (r_players room) socketId (f p))
                         (r_food room) (r_tickCount room),
                  f p)) as ->.
    { apply player_of_inv. unfold store_player. cbn [s_roomId rooms r_players].
      rewrite !get_set_same. auto. }
    unfold store_player. cbn [rooms s_roomId s_rng s_emitted r_players r_food r_tickCount].
    now rewrite !set_set.
  - unfold intent. now rewrite P.
Qed.

(** An intent changes one field of one player and nothing else. *)
Lemma intent_frame f socketId s :
  let s' := intent f socketId s in
  (s_roomId s' = s_roomId s /\ s_rng s' = s_rng s /\ s_emitted s' = s_emitted s) /\
  (forall r, option_map room_meta (JsObj.get (rooms s') r) =
             option_map room_meta (JsObj.get (rooms s) r)) /\
  (forall r id,
      player_in s' r id =
      match player_of socketId s with
      | Some (roomId, _, player) =>
          if String.eqb r roomId && String.eqb id socketId then Some (f player)
          else player_in s r id
      | None => player_in s r id
      end).
Proof.
  cbn zeta. unfold intent.
  destruct (player_of socketId s) as [[[rid room] p]|] eqn:P; [|repeat split].
  apply player_of_inv in P. destruct P as (H1 & H2 & H3 & H4).
  unfold store_player, player_in. cbn [rooms s_roomId s_rng s_emitted].
  split; [repeat split|]. split.
  - intros r. destruct (String.eqb_spec rid r) as [<-|Hne].
    + now rewrite get_set_same, H3.
    + now rewrite get_set_other.
  - intros r id. destruct (String.eqb_spec r rid) as [->|Hne]; cbn [andb].
    + rewrite get_set_same, H3. cbn [r_players].
      destruct (String.eqb_spec id socketId) as [->|Hne'].
      * apply get_set_same.
      * apply get_set_other. congruence.
    + rewrite get_set_other; auto.
Qed.

(** X3.  [input] writes the heading of the sending socket's player in the
    socket's current room and nothing else: no other player, no food, no
    tick counter, no socket, random number or message changes.  It does
    nothing when the socket has no room, the room's name is empty, the room
    is gone or the socket has no player in it (for instance because it
    died).  Only the last heading sent counts. *)
Theorem input_writes_one_heading socketId angle s :
  let s' := on_input socketId angle s in
  (s_roomId s' = s_roomId s /\ s_rng s' = s_rng s /\ s_emitted s' = s_emitted s) /\
  (forall r, option_map room_meta (JsObj.get (rooms s') r) =
             option_map room_meta (JsObj.get (rooms s) r)) /\
  (forall r id,
      player_in s' r id =
      match player_of socketId s with
      | Some (roomId, _, player) =>
          if String.eqb r roomId && String.eqb id socketId
          then Some (with_angle player angle)
          else player_in s r id
      | None => player_in s r id
      end) /\
  (player_of socketId s = None -> s' = s) /\
  (forall angle', on_input socketId angle' s' = on_input socketId angle' s).
Proof.
  cbn zeta.
  change (on_input socketId angle s)
    with (intent (fun p => with_angle p angle) socketId s).
  destruct (intent_frame (fun p => with_angle p angle) socketId s) as (A & B & C).
  cbn zeta in *. repeat split; try apply A; auto.
  - intros H. unfold intent. now rewrite H.
  - intros angle'.
    change (on_input socketId angle' ?t)
      with (intent (fun p => with_angle p angle') socketId t).
    now rewrite intent_intent.
Qed.

(** X4.  [boost] writes the boosting flag of the sending socket's player in
    the same way: that one field of that one player, nothing when there is
    no such player, the last value sent counts; and the two intents do not
    interfere: a heading and a boost flag sent in either order leave the
    same state. *)
Theorem boost_writes_one_flag socketId isBoosting s :
  let s' := on_boost socketId isBoosting s in
  (s_roomId s' = s_roomId s /\ s_rng s' = s_rng s /\ s_emitted s' = s_emitted s) /\
  (forall r, option_map room_meta (JsObj.get (rooms s') r) =
             option_map room_meta (JsObj.get (rooms s) r)) /\
  (forall r id,
      player_in s' r id =
      match player_of socketId s with
      | Some (roomId, _, player) =>
          if String.eqb r roomId && String.eqb id socketId
          then Some (with_isBoosting player isBoosting)
          else player_in s r id
      | None => player_in s r id
      end) /\
  (player_of socketId s = None -> s' = s) /\
  (forall b', on_boost socketId b' s' = on_boost socketId b' s) /\
  (forall angle, on_input socketId angle s' =
                 on_boost socketId isBoosting (on_input socketId angle s)).
Proof.
  cbn zeta.
  change (on_boost socketId isBoosting s)
    with (intent (fun p => with_isBoosting p isBoosting) socketId s).
  destruct (intent_frame (fun p => with_isBoosting p isBoosting) socketId s)
    as (A & B & C).
  cbn zeta in *. repeat split; try apply A; auto.
  - intros H. unfold intent. now rewrite H.
  - intros b'.
    change (on_boost socketId b' ?t)
      with (intent (fun p => with_isBoosting p b') socketId t).
    now rewrite intent_intent.
  - intros angle.
    change (on_input socketId angle ?t)
      with (intent (fun p => with_angle p angle) socketId t).
    change (on_boost socketId isBoosting ?t)
      with (intent (fun p => with_isBoosting p isBoosting) socketId t).
    now rewrite !intent_intent.
Qed.

(** ** Leaving *)

Lemma keys_nil_iff (A : Type) (o : JsObj.t A) :
  (length (JsObj.keys o) =? 0)%nat = true <-> forall k, JsObj.get o k = None.
Proof.
  rewrite Nat.eqb_eq, length_zero_iff_nil. split.
  - intros H k. destruct (JsObj.get o k) as [v|] eqn:G; auto.
    assert (In k (JsObj.keys o)) as Hin by (apply keys_in; eauto).
    rewrite H in Hin. contradiction.
  - intros H. destruct (JsObj.keys o) as [|k l] eqn:K; auto.
    assert (In k (JsObj.keys o)) as Hin by (rewrite K; now left).
    apply keys_in in Hin. destruct Hin as [v Hv]. rewrite H in Hv. discriminate.
Qed.

Lemma disconnect_player_in socketId s r id :
  player_in (on_disconnect socketId s) r id =
  if current_room socketId s r && String.eqb id socketId then None
  else player_in s r id.
Proof.
  unfold on_disconnect, player_in, current_room. cbn [rooms].
  destruct (JsObj.get (s_roomId s) socketId) as [r0|]; [|reflexivity].
  destruct (String.eqb_spec r0 "") as [->|Hne0]; cbn [negb].
  { now rewrite andb_false_r. }
  rewrite andb_true_r.
  destruct (JsObj.get (rooms s) r0) as [room|] eqn:G.
  - destruct (length (JsObj.keys (JsObj.delete (r_players room) socketId)) =? 0)%nat
      eqn:E.
    + pose proof (proj1 (keys_nil_iff _) E) as Hall.
      destruct (String.eqb_spec r r0) as [->|Hne]; cbn [andb].
      * rewrite get_delete_same, G.
        destruct (String.eqb_spec id socketId) as [->|Hne']; auto.
        specialize (Hall id). rewrite get_delete_other in Hall by congruence.
        now rewrite Hall.
      * rewrite get_delete_other by congruence. reflexivity.
    + destruct (String.eqb_spec r r0) as [->|Hne]; cbn [andb].
      * rewrite get_set_same, G. cbn [r_players].
        destruct (String.eqb_spec id socketId) as [->|Hne'].
        -- apply get_delete_same.
        -- apply get_delete_other. congruence.
      * rewrite get_set_other by congruence. reflexivity.
  - destruct (String.eqb_spec r r0) as [->|Hne]; cbn [andb]; auto.
    rewrite G. now destruct (String.eqb id socketId).
Qed.

Lemma disconnect_rooms socketId s r :
  (JsObj.get (rooms (on_disconnect socketId s)) r = None <->
   JsObj.get (rooms s) r = None \/
   (current_room socketId s r = true /\
    forall id, id <> socketId -> player_in s r id = None)) /\
  (forall room', JsObj.get (rooms (on_disconnect socketId s)) r = Some room' ->
     exists room, JsObj.get (rooms s) r = Some room /\ room_meta room' = room_meta room).
Proof.
  unfold on_disconnect, player_in, current_room. cbn [rooms].
  destruct (JsObj.get (s_roomId s) socketId) as [r0|];
    [|split; [split; [auto | intros [H|[H _]]; [auto|discriminate]] | eauto]].
  destruct (String.eqb_spec r0 "") as [->|Hne0]; cbn [negb].
  { rewrite andb_false_r.
    split; [split; [auto | intros [H|[H _]]; [auto|discriminate]] | eauto]. }
  rewrite andb_true_r.
  destruct (JsObj.get (rooms s) r0) as [room|] eqn:G.
  - destruct (length (JsObj.keys (JsObj.delete (r_players room) socketId)) =? 0)%nat
      eqn:E.
    + pose proof (proj1 (keys_nil_iff _) E) as Hall.
      destruct (String.eqb_spec r r0) as [->|Hne].
      * rewrite get_delete_same, G. split; [|discriminate].
        split; auto. intros _. right. split; auto.
        intros id Hid. specialize (Hall id).
        now rewrite get_delete_other in Hall by congruence.
      * rewrite get_delete_other by congruence.
        split; [split; [auto | intros [H|[H _]]; [auto|discriminate]] | eauto].
    + destruct (String.eqb_spec r r0) as [->|Hne].
      * rewrite get_set_same, G. split.
        -- split; [discriminate|]. intros [H|[_ H]]; [discriminate|].
           exfalso. assert ((length (JsObj.keys (JsObj.delete (r_players room) socketId))
                             =? 0)%nat = true) as E'; [|congruence].
           apply keys_nil_iff. intros k.
           destruct (String.eqb_spec k socketId) as [->|Hk].
           ++ apply get_delete_same.
           ++ rewrite get_delete_other by congruence. auto.
        -- intros room' H. inversion H. eauto.
      * rewrite get_set_other by congruence.
        split; [split; [auto | intros [H|[H _]]; [auto|discriminate]] | eauto].
  - split; [|eauto]. split; auto. intros [H|[H _]]; auto.
    destruct (String.eqb_spec r r0) as [->|Hne]; [auto|discriminate].
Qed.

(** X5.  [disconnect] removes the socket's player from the room the socket
    last joined, provided that room's name is not the empty string, and no
    other player of any room; it forgets the socket's room.  A room
    disappears exactly when it is that room and nobody else is left in it;
    every room that remains keeps its food and its tick counter.  No random
    number is drawn and nothing is emitted. *)
Theorem disconnect_removes_one_player socketId s :
  let s' := on_disconnect socketId s in
  (forall r id,
      player_in s' r id =
      if current_room socketId s r && String.eqb id socketId then None
      else player_in s r id) /\
  (forall r,
      JsObj.get (rooms s') r = None <->
      JsObj.get (rooms s) r = None \/
      (current_room socketId s r = true /\
       forall id, id <> socketId -> player_in s r id = None)) /\
  (forall r room', JsObj.get (rooms s') r = Some room' ->
     exists room, JsObj.get (rooms s) r = Some room /\ room_meta room' = room_meta room) /\
  (forall k, JsObj.get (s_roomId s') k =
             if String.eqb k socketId then None else JsObj.get (s_roomId s) k) /\
  s_rng s' = s_rng s /\ s_emitted s' = s_emitted s.
Proof.
  cbn zeta. split; [|split; [|split; [|split]]].
  - intros r id. apply disconnect_player_in.
  - intros r. apply disconnect_rooms.
  - intros r. apply disconnect_rooms.
  - intros k. unfold on_disconnect. cbn [s_roomId].
    destruct (String.eqb_spec k socketId) as [->|Hne].
    + apply get_delete_same.
    + apply get_delete_other. congruence.
  - split; reflexivity.
Qed.

Lemma joinRoom_roomId socketId roomId playerName s :
  s_roomId (on_joinRoom socketId roomId playerName s) =
  if throws (joinRoom_handler socketId roomId playerName s) then s_roomId s
  else JsObj.set (s_roomId s) socketId roomId.
Proof.
  unfold on_joinRoom, joinRoom_handler.
  destruct (JsObj.get (rooms s) roomId) as [room|].
  - cbn [state_after throws]. unfold enter.
    now destruct (new_player socketId playerName (s_rng s)).
  - destruct (JsObj.inherited roomId); [reflexivity|].
    destruct (createRoom (s_rng s)) as [room n1]. cbn [state_after throws].
    unfold enter. now destruct (new_player socketId playerName n1).
Qed.

Lemma joinRoom_player_in socketId roomId playerName s r id :
  player_in (on_joinRoom socketId roomId playerName s) r id =
  if String.eqb r roomId && String.eqb id socketId &&
     negb (throws (joinRoom_handler socketId roomId playerName s))
  then Some (fst (new_player socketId playerName
                    (match JsObj.get (rooms s) roomId with
                     | Some _ => s_rng s
                     | None => snd (createRoom (s_rng s))
                     end)))
  else player_in s r id.
Proof.
  unfold on_joinRoom, joinRoom_handler, player_in.
  destruct (JsObj.get (rooms s) roomId) as [room|] eqn:G.
  - cbn [state_after throws negb]. unfold enter. rewrite andb_true_r.
    destruct (new_player socketId playerName (s_rng s)) as [player n2].
    cbn [rooms fst].
    destruct (String.eqb_spec r roomId) as [->|Hne]; cbn [andb].
    + rewrite get_set_same, G. cbn [r_players].
      destruct (String.eqb_spec id socketId) as [->|Hne'].
      * apply get_set_same.
      * apply get_set_other. congruence.
    + rewrite get_set_other by congruence. reflexivity.
  - destruct (JsObj.inherited roomId).
    { cbn [state_after throws negb rooms]. now rewrite andb_false_r. }
    destruct (createRoom (s_rng s)) as [room n1] eqn:C. cbn [snd].
    assert (r_players room = JsObj.empty Player) as Hempty.
    { unfold createRoom in C. destruct (seed_food 100 [] (s_rng s)).
      inversion C. reflexivity. }
    cbn [state_after throws negb]. unfold enter. rewrite andb_true_r.
    destruct (new_player socketId playerName n1) as [player n2].
    cbn [rooms fst].
    destruct (String.eqb_spec r roomId) as [->|Hne]; cbn [andb].
    + rewrite get_set_same, G. cbn [r_players]. rewrite Hempty.
      destruct (String.eqb_spec id socketId) as [->|Hne'].
      * apply get_set_same.
      * rewrite get_set_other by congruence. reflexivity.
    + rewrite get_set_other by congruence. reflexivity.
Qed.

(** X6.  [joinRoom] does not take the socket out of the room it was in.  A
    socket that joins one room and then another, neither name being that of
    an inherited property (so that both joins return), leaves its first
    player behind: the player stays in the first room, the socket's heading and
    boost messages never reach it again, and the socket's disconnect
    removes only the player of the second room, so the first room stays in
    the registry. *)
Theorem a_second_join_leaves_the_first_player_behind
        socketId roomId1 roomId2 name1 name2 s :
  roomId1 <> roomId2 ->
  JsObj.inherited roomId1 = false -> JsObj.inherited roomId2 = false ->
  let s1 := on_joinRoom socketId roomId1 name1 s in
  let s2 := on_joinRoom socketId roomId2 name2 s1 in
  let s3 := on_disconnect socketId s2 in
  exists p,
    (p_id p = socketId /\ p_name p = name1) /\
    player_in s1 roomId1 socketId = Some p /\
    player_in s2 roomId1 socketId = Some p /\
    player_in s3 roomId1 socketId = Some p /\
    (forall angle, player_in (on_input socketId angle s2) roomId1 socketId = Some p) /\
    (forall b, player_in (on_boost socketId b s2) roomId1 socketId = Some p) /\
    (roomId2 <> ""%string -> player_in s3 roomId2 socketId = None) /\
    (forall angle, on_input socketId angle s3 = s3) /\
    (forall b, on_boost socketId b s3 = s3).
Proof.
  intros Hne Hown1 Hown2. cbn zeta.
  set (s1 := on_joinRoom socketId roomId1 name1 s).
  set (s2 := on_joinRoom socketId roomId2 name2 s1).
  exists (fst (new_player socketId name1
                   (match JsObj.get (rooms s) roomId1 with
                    | Some _ => s_rng s
                    | None => snd (createRoom (s_rng s))
                    end))).
  split; [split; reflexivity|].
  assert (player_in s1 roomId1 socketId =
          Some (fst (new_player socketId name1
                   (match JsObj.get (rooms s) roomId1 with
                    | Some _ => s_rng s
                    | None => snd (createRoom (s_rng s))
                    end)))) as H1.
  { unfold s1.
    rewrite joinRoom_player_in, !String.eqb_refl, not_inherited_returns by assumption.
    reflexivity. }
  assert (player_in s2 roomId1 socketId = player_in s1 roomId1 socketId) as H2.
  { unfold s2. rewrite joinRoom_player_in.
    destruct (String.eqb_spec roomId1 roomId2); [contradiction|reflexivity]. }
  assert (JsObj.get (s_roomId s2) socketId = Some roomId2) as Hr.
  { unfold s2. rewrite joinRoom_roomId, not_inherited_returns by assumption.
    apply get_set_same. }
  assert (forall f, player_in (intent f socketId s2) roomId1 socketId =
                    player_in s2 roomId1 socketId) as Hint.
  { intros f. destruct (intent_frame f socketId s2) as (_ & _ & C). cbn zeta in C.
    rewrite C. destruct (player_of socketId s2) as [[[rid room] q]|] eqn:P; auto.
    apply player_of_inv in P. destruct P as (P1 & _).
    assert (rid = roomId2) by congruence. subst rid.
    destruct (String.eqb_spec roomId1 roomId2); [contradiction|reflexivity]. }
  split; [exact H1|]. split; [now rewrite H2|].
  assert (player_of socketId (on_disconnect socketId s2) = None) as Hgone.
  { unfold player_of.
    assert (JsObj.get (s_roomId (on_disconnect socketId s2)) socketId = None) as ->
      by apply get_delete_same.
    reflexivity. }
  split; [|split; [|split; [|split; [|split]]]].
  - rewrite disconnect_player_in. unfold current_room. rewrite Hr.
    destruct (String.eqb_spec roomId1 roomId2); [contradiction|].
    cbn [andb]. now rewrite H2.
  - intros angle. change (on_input socketId angle s2)
      with (intent (fun q => with_angle q angle) socketId s2).
    now rewrite Hint, H2.
  - intros b. change (on_boost socketId b s2)
      with (intent (fun q => with_isBoosting q b) socketId s2).
    now rewrite Hint, H2.
  - intros Hne2. rewrite disconnect_player_in. unfold current_room. rewrite Hr.
    rewrite !String.eqb_refl.
    destruct (String.eqb_spec roomId2 "") as [->|_]; [contradiction|reflexivity].
  - intros angle. unfold on_input. now rewrite Hgone.
  - intros b. unfold on_boost. now rewrite Hgone.
Qed.

(** X7.  The empty string is a room name like any other for [joinRoom], but
    the other handlers read it as "no room": a player that joined the room
    named by the empty string is out of its socket's reach.  Its heading and
    boost messages change nothing, and its disconnect leaves the registry
    as it is, the player included. *)
Theorem the_empty_room_name_is_out_of_reach socketId playerName s :
  let s1 := on_joinRoom socketId "" playerName s in
  (exists p, player_in s1 "" socketId = Some p /\ p_name p = playerName) /\
  (forall angle, on_input socketId angle s1 = s1) /\
  (forall b, on_boost socketId b s1 = s1) /\
  rooms (on_disconnect socketId s1) = rooms s1.
Proof.
  cbn zeta. set (s1 := on_joinRoom socketId "" playerName s).
  assert (JsObj.get (s_roomId s1) socketId = Some ""%string) as Hr.
  { unfold s1. rewrite joinRoom_roomId, not_inherited_returns by reflexivity.
    apply get_set_same. }
  assert (player_of socketId s1 = None) as Hp.
  { unfold player_of. now rewrite Hr. }
  split; [|split; [|split]].
  - unfold s1.
    rewrite joinRoom_player_in, !String.eqb_refl, not_inherited_returns by reflexivity.
    cbn [andb negb]. eexists. split; reflexivity.
  - intros angle. unfold on_input. now rewrite Hp.
  - intros b. unfold on_boost. now rewrite Hp.
  - unfold on_disconnect. cbn [rooms]. now rewrite Hr.
Qed.

(** ** Collisions and the tick *)

Lemma alone_is_safe players id :
  JsObj.keys players = [id] -> deadPlayers players = [].
Proof.
  intros K. unfold deadPlayers, is_dead. rewrite K. cbn [filter existsb].
  rewrite String.eqb_refl. cbn [orb].
  now destruct (JsObj.get players id).
Qed.

(** X8.  There is no collision of a player with its own body: the collision
    scan skips the player's own entry.  A player that is alone in its room
    does not die in a tick, wherever it is and however its body lies; the
    tick emits the [gameState] of the moved room and nothing else. *)
Theorem a_lone_player_never_dies roomId w id :
  JsObj.keys (r_players (w_room w)) = [id] ->
  let w' := tick_room roomId w in
  w_room w' = fst (moved (w_room w) (w_rng w)) /\
  JsObj.keys (r_players (w_room w')) = [id] /\
  w_emitted w' =
    w_emitted w ++
    [mkEmit (To roomId) (gameState (r_players (w_room w')) (r_food (w_room w')))].
Proof.
  intros K. cbn zeta. unfold tick_room.
  destruct (moved_frame (w_room w) (w_rng w)) as (_ & Hk & _). cbn zeta in Hk.
  destruct (moved (w_room w) (w_rng w)) as [room1 n1]. cbn [fst] in *.
  assert (JsObj.keys (r_players room1) = [id]) as K1.
  { unfold JsObj.keys in *. now rewrite Hk. }
  unfold resolve_deaths. cbn [w_room].
  rewrite (alone_is_safe _ K1). cbn [fold_left broadcast w_room w_emitted].
  auto.
Qed.

Lemma no_broadcast_among_the_dead dp :
  broadcasts (map (fun pid => mkEmit (To pid) dead) dp) = 0%nat.
Proof. unfold broadcasts. induction dp; simpl; auto. Qed.

Lemma broadcasts_app out1 out2 :
  broadcasts (out1 ++ out2) = (broadcasts out1 + broadcasts out2)%nat.
Proof. unfold broadcasts. now rewrite filter_app, length_app. Qed.

Lemma tick_loop ids : forall (o : JsObj.t Room) st,
  (forall k, In k ids -> exists room, JsObj.get o k = Some room) ->
  exists out,
    snd (snd (JsObj.for_in tick_body ids o st)) = snd st ++ out /\
    broadcasts out = length ids.
Proof.
  induction ids as [|k ids IH]; intros o st Hall.
  - exists []. simpl. now rewrite app_nil_r.
  - cbn [JsObj.for_in]. destruct (Hall k (or_introl eq_refl)) as [room G].
    rewrite G. unfold tick_body at 1.
    destruct (tick_room_closed k (mkWork room (fst st) (snd st)))
      as (_ & _ & He & _). cbn zeta in He. cbn [w_emitted] in He.
    set (w' := tick_room k (mkWork room (fst st) (snd st))) in *.
    destruct (IH (JsObj.set o k (w_room w')) (w_rng w', w_emitted w')) as [out [Ho Hb]].
    { intros k' Hin. destruct (String.eqb_spec k k') as [->|Hne].
      - rewrite get_set_same. eauto.
      - rewrite get_set_other by assumption. apply Hall. now right. }
    rewrite Ho. cbn [snd]. rewrite He.
    eexists. rewrite <- !app_assoc. split; [reflexivity|].
    rewrite !broadcasts_app, no_broadcast_among_the_dead, Hb.
    reflexivity.
Qed.

(** X9.  One run of the game loop ticks every room of the registry once: the
    registry keeps its room names, every room's tick counter goes up by
    one, no socket's room changes, the message log is only extended, and
    the extension holds exactly one [gameState] per room, empty rooms
    included. *)
Theorem the_loop_ticks_every_room_once s :
  let s' := gameLoop s in
  map fst (rooms s') = map fst (rooms s) /\
  s_roomId s' = s_roomId s /\
  (forall r room, JsObj.get (rooms s) r = Some room ->
     exists room', JsObj.get (rooms s') r = Some room' /\
                   r_tickCount room' = (r_tickCount room + 1)%Z /\
                   (length (r_food room) <= length (r_food room'))%nat) /\
  exists out,
    s_emitted s' = s_emitted s ++ out /\
    broadcasts out = length (JsObj.keys (rooms s)).
Proof.
  cbn zeta. split; [|split; [|split]].
  - unfold gameLoop.
    pose proof (for_in_fst tick_body (JsObj.keys (rooms s)) (rooms s)
                  (s_rng s, s_emitted s)) as Hk.
    now destruct (JsObj.for_in _ _ _ _) as [rooms' st].
  - unfold gameLoop. now destruct (JsObj.for_in _ _ _ _) as [rooms' st].
  - intros r room G. destruct (gameLoop_get_fwd s r G) as (n & out & G').
    eexists. split; [exact G'|].
    destruct (tick_room_closed r (mkWork room n out)) as (Hf & Ht & _).
    cbn zeta in *. cbn [w_room w_rng] in *. split; auto.
    rewrite Hf, length_app.
    destruct (moved_frame room n) as (_ & _ & Hlen). cbn zeta in Hlen. lia.
  - unfold gameLoop.
    destruct (@tick_loop (JsObj.keys (rooms s)) (rooms s) (s_rng s, s_emitted s))
      as [out [Ho Hb]].
    { intros k Hin. now apply keys_in. }
    destruct (JsObj.for_in _ _ _ _) as [rooms' st]. cbn [snd s_emitted] in *.
    eauto.
Qed.

(** ** What a death leaves *)

Lemma even_indexed_from_SS (A : Type) (l : list A) : forall n,
  filter (fun ix => Nat.even (fst ix)) (combine (seq (S (S n)) (length l)) l) =
  map (fun ix => (S (S (fst ix)), snd ix))
      (filter (fun ix => Nat.even (fst ix)) (combine (seq n (length l)) l)).
Proof.
  induction l as [|a l IH]; intros n; [reflexivity|].
  cbn [length seq combine filter fst]. rewrite IH.
  change (Nat.even (S (S n))) with (Nat.even n).
  now destruct (Nat.even n).
Qed.

Lemma even_indexed_cons2 (A : Type) (a b : A) l :
  even_indexed (a :: b :: l) = a :: even_indexed l.
Proof.
  unfold even_indexed. cbn [length seq combine filter fst Nat.even map snd].
  rewrite even_indexed_from_SS, map_map. cbn [snd]. reflexivity.
Qed.

Lemma even_indexed_spec (A : Type) (l : list A) :
  (length (even_indexed l) = ((length l + 1) / 2)%nat /\
   forall i, nth_error (even_indexed l) i = nth_error l (2 * i)%nat) /\
  forall a,
    length (even_indexed (a :: l)) = ((length (a :: l) + 1) / 2)%nat /\
    forall i, nth_error (even_indexed (a :: l)) i = nth_error (a :: l) (2 * i)%nat.
Proof.
  induction l as [|b l [[IHl IHn] IH]].
  - split; [split; [reflexivity | now intros [|i]]|].
    intros a. split; [reflexivity|]. intros [|i]; [reflexivity|].
    cbn [even_indexed]. replace (2 * S i)%nat with (S (S (2 * i))) by lia.
    now destruct i.
  - split; [apply IH|]. intros a. rewrite even_indexed_cons2. split.
    + cbn [length]. rewrite IHl.
      replace (S (S (length l)) + 1)%nat with (length l + 1 + 1 * 2)%nat by lia.
      rewrite Nat.div_add by lia. lia.
    + intros [|i]; [reflexivity|].
      replace (2 * S i)%nat with (S (S (2 * i))) by lia.
      cbn [nth_error]. apply IHn.
Qed.

(** X10.  A dead player's body is turned into food segment by segment, every
    other one: the room's food list keeps what it held, in order, and gains
    at its end one food per segment of even index, the [i]-th of them at
    segment [2 i], in the dead player's color; that is half the segments,
    rounded up. *)
Theorem a_dead_body_leaves_every_other_segment body c food0 :
  let food' := body_to_food 0 body c food0 in
  firstn (length food0) food' = food0 /\
  length food' = (length food0 + (length body + 1) / 2)%nat /\
  forall i, nth_error food' (length food0 + i)%nat =
            option_map (segment_food c) (nth_error body (2 * i)%nat).
Proof.
  cbn zeta. rewrite body_to_food_even.
  destruct (even_indexed_spec body) as [[Hl Hn] _].
  split; [|split].
  - rewrite firstn_app, Nat.sub_diag, firstn_all. cbn [firstn]. apply app_nil_r.
  - now rewrite length_app, length_map, Hl.
  - intros i. rewrite nth_error_app2 by lia.
    replace (length food0 + i - length food0)%nat with i by lia.
    now rewrite nth_error_map, Hn.
Qed.

(** ** Distances that do not depend on the engine *)

Lemma sub_diag_finite x : is_finite x = true -> x - x = 0.
Proof.
  unfold is_finite. rewrite negb_true_iff, orb_false_iff.
  rewrite is_nan_spec, is_infinity_spec. intros [Hn Hi].
  apply Prim2SF_inj. rewrite sub_spec.
  change (Prim2SF 0) with (S754_zero false).
  destruct (Prim2SF x) as [s|s| |s m e]; try discriminate.
  - now destruct s.
  - unfold SF64sub, SFsub. rewrite Z.sub_diag. reflexivity.
Qed.

Lemma touches_own_place p :
  is_finite (p_x p) = true -> is_finite (p_y p) = true ->
  touches p (mkSegment (p_x p) (p_y p)) = true.
Proof.
  intros Hx Hy. unfold touches. cbn [s_x s_y].
  now rewrite (sub_diag_finite _ Hx), (sub_diag_finite _ Hy).
Qed.

(** X11.  A head that is exactly on a segment of another player's body is
    marked dead, whatever the engine's [Math.hypot] returns elsewhere: the
    coordinate differences are zero, where ECMAScript fixes the distance at
    0, which is below the threshold of 10.  The positions must be finite
    numbers. *)
Theorem a_head_on_a_segment_dies players id other p q :
  other <> id ->
  JsObj.get players id = Some p -> JsObj.get players other = Some q ->
  is_finite (p_x p) = true -> is_finite (p_y p) = true ->
  In (mkSegment (p_x p) (p_y p)) (p_body q) ->
  In id (deadPlayers players).
Proof.
  intros Hne Gp Gq Hx Hy Hin. apply deadPlayers_spec. exists p. split; auto.
  apply is_dead_spec. exists other, q, (mkSegment (p_x p) (p_y p)).
  repeat split; auto. now apply touches_own_place.
Qed.

(** ** The body follows the head *)

Lemma handle_boosting_identity tickCount t :
  let p := t_player t in
  let p' := t_player (snd (handle_boosting tickCount t)) in
  p_id p' = p_id p /\ p_name p' = p_name p /\ p_color p' = p_color p.
Proof.
  unfold handle_boosting.
  destruct (p_isBoosting (t_player t) && (10 <? p_score (t_player t))%Z);
    [|now cbn].
  destruct (Z.rem tickCount 5 =? 0)%Z; [|now cbn].
  destruct (tail_of (p_body (t_player t))); now cbn.
Qed.

Lemma each_turn_identity tickCount t :
  p_id (t_player (player_turn tickCount t)) = p_id (t_player t).
Proof.
  rewrite player_turn_closed. cbn [t_player].
  destruct (handle_boosting_identity tickCount t) as (Hi & _).
  cbn zeta in Hi. unfold fed. cbn. auto.
Qed.

(** X12.  In its turn of a tick a player's body moves up by one place: the
    new first segment is the head's new position, every other segment takes
    the place the segment before it had, and the body is cut at the target
    length the turn started with (food eaten in this turn lengthens the
    body only from the next tick on).  The player keeps its identifier, its
    name and its color. *)
Theorem each_segment_takes_the_place_of_the_one_before tickCount t :
  let p := t_player t in
  let p' := t_player (player_turn tickCount t) in
  (forall i, nth_error (p_body p') i =
             if (i <? p_length p)%nat
             then match i with
                  | O => Some (mkSegment (p_x p') (p_y p'))
                  | S j => nth_error (p_body p) j
                  end
             else None) /\
  p_id p' = p_id p /\ p_name p' = p_name p /\ p_color p' = p_color p.
Proof.
  cbn zeta.
  destruct (player_turn_advance tickCount t) as (Hx & Hy & Hb). cbn zeta in *.
  split.
  - intros i. rewrite Hb, Hx, Hy. unfold advance.
    rewrite update_body_body, nth_error_firstn.
    change (p_length (move_head ?s ?q)) with (p_length q).
    change (p_body (move_head ?s ?q)) with (p_body q).
    change (p_x (update_body ?q)) with (p_x q).
    change (p_y (update_body ?q)) with (p_y q).
    destruct (i <? p_length (t_player t))%nat; auto. now destruct i.
  - rewrite player_turn_closed. cbn [t_player].
    destruct (handle_boosting_identity tickCount t) as (Hi & Hn & Hc).
    cbn zeta in *. unfold fed. cbn. auto.
Qed.

(** ** What holds of every player of a reachable state *)

Lemma gameLoop_player_in s r id p' :
  player_in (gameLoop s) r id = Some p' ->
  exists p tickCount food0 n,
    player_in s r id = Some p /\
    p' = t_player (player_turn tickCount (mkTurn p food0 n)).
Proof.
  unfold player_in. intros H.
  destruct (JsObj.get (rooms (gameLoop s)) r) as [room'|] eqn:G; [|discriminate].
  apply gameLoop_get in G. destruct G as (room & n & out & G & ->).
  rewrite G.
  destruct (tick_room_closed r (mkWork room n out)) as (_ & _ & _ & Hget).
  cbn zeta in Hget. cbn [w_room w_rng] in Hget. rewrite Hget in H.
  destruct (in_dec string_dec id _); [discriminate|].
  apply moved_get_inv in H. destruct H as (p & food0 & m0 & Gp & _ & ->).
  eauto 6.
Qed.

Section EveryPlayer.

Variable P : string -> Player -> Prop.
Hypothesis P_new : forall socketId playerName n,
  P socketId (fst (new_player socketId playerName n)).
Hypothesis P_turn : forall id tickCount p food0 n,
  P id p -> P id (t_player (player_turn tickCount (mkTurn p food0 n))).
Hypothesis P_angle : forall id p angle, P id p -> P id (with_angle p angle).
Hypothesis P_boost : forall id p b, P id p -> P id (with_isBoosting p b).

Lemma every_player_step s e :
  (forall r id p, player_in s r id = Some p -> P id p) ->
  forall r id p, player_in (step s e) r id = Some p -> P id p.
Proof.
  intros Hs r id p H.
  destruct e as [sid rid name|sid angle|sid b|sid|]; cbn [step] in H.
  - rewrite joinRoom_player_in in H.
    set (q := fst (new_player _ _ _)) in H.
    assert (P sid q) as Hq by apply P_new. clearbody q.
    destruct (String.eqb_spec r rid) as [->|]; cbn [andb] in H; [|eauto].
    destruct (String.eqb_spec id sid) as [->|]; cbn [andb] in H; [|eauto].
    destruct (throws _); cbn [negb] in H; [eauto|congruence].
  - change (on_input sid angle s)
      with (intent (fun q => with_angle q angle) sid s) in H.
    destruct (intent_frame (fun q => with_angle q angle) sid s) as (_ & _ & C).
    cbn zeta in C. rewrite C in H.
    destruct (player_of sid s) as [[[rid room] q]|] eqn:Pl; [|eauto].
    apply player_of_inv in Pl. destruct Pl as (_ & _ & G1 & G2).
    destruct (String.eqb_spec r rid) as [->|]; cbn [andb] in H; [|eauto].
    destruct (String.eqb_spec id sid) as [->|]; [|eauto].
    injection H as <-. apply P_angle. apply (Hs rid). unfold player_in. now rewrite G1.
  - change (on_boost sid b s)
      with (intent (fun q => with_isBoosting q b) sid s) in H.
    destruct (intent_frame (fun q => with_isBoosting q b) sid s) as (_ & _ & C).
    cbn zeta in C. rewrite C in H.
    destruct (player_of sid s) as [[[rid room] q]|] eqn:Pl; [|eauto].
    apply player_of_inv in Pl. destruct Pl as (_ & _ & G1 & G2).
    destruct (String.eqb_spec r rid) as [->|]; cbn [andb] in H; [|eauto].
    destruct (String.eqb_spec id sid) as [->|]; [|eauto].
    injection H as <-. apply P_boost. apply (Hs rid). unfold player_in. now rewrite G1.
  - rewrite disconnect_player_in in H.
    destruct (current_room sid s r && String.eqb id sid); [discriminate|eauto].
  - apply gameLoop_player_in in H.
    destruct H as (q & tickCount & food0 & n & G & ->).
    apply P_turn. eauto.
Qed.

Lemma every_player events : forall s,
  (forall r id p, player_in s r id = Some p -> P id p) ->
  forall r id p, player_in (run events s) r id = Some p -> P id p.
Proof.
  unfold run. induction events as [|e events IH]; intros s Hs; cbn [fold_left]; auto.
  apply IH. now apply every_player_step.
Qed.

End EveryPlayer.

(** X13.  In every state the server can reach, a player is stored under its
    own identifier, its score is at most what its length has earned (the
    initial 100 and 10 per unit of target length above the initial 5;
    boosting is the only way to fall below that), and its body has a last
    segment, so a paid boost always drops its residue. *)
Theorem players_earn_their_score_by_length events r room id p :
  JsObj.get (rooms (run events initial)) r = Some room ->
  JsObj.get (r_players room) id = Some p ->
  p_id p = id /\
  (p_score p <= INITIAL_SCORE + 10 * (Z.of_nat (p_length p) - Z.of_nat INITIAL_LENGTH))%Z /\
  exists tail, tail_of (p_body p) = Some tail.
Proof.
  intros G Gp.
  assert (player_in (run events initial) r id = Some p) as H
    by (unfold player_in; now rewrite G).
  split; [|split].
  - revert H.
    apply (@every_player (fun id p => p_id p = id)) with (s := initial) (events := events).
    + reflexivity.
    + intros id0 tickCount q food0 n Hq.
      pose proof (each_turn_identity tickCount (mkTurn q food0 n)) as Hi.
      cbn [t_player] in Hi. congruence.
    + auto.
    + auto.
    + intros r0 id0 p0 H0. discriminate.
  - revert H.
    apply (@every_player
             (fun _ p => (p_score p <= INITIAL_SCORE +
                           10 * (Z.of_nat (p_length p) - Z.of_nat INITIAL_LENGTH))%Z))
      with (s := initial) (events := events).
    + intros. cbn. unfold INITIAL_SCORE, INITIAL_LENGTH. lia.
    + intros id0 tickCount q food0 n Hq.
      rewrite player_turn_closed. cbn [t_player t_food t_rng].
      unfold fed. cbn [p_score p_length with_score with_length].
      change (p_score (update_body (move_head ?s ?x))) with (p_score x).
      change (p_length (update_body (move_head ?s ?x))) with (p_length x).
      rewrite handle_boosting_score.
      destruct (handle_boosting_frame tickCount (mkTurn q food0 n))
        as (_ & _ & _ & Hl & _). cbn zeta in Hl. cbn [t_player] in Hl.
      rewrite Hl. cbn [t_player].
      assert (0 <= boost_cost tickCount q)%Z
        by (unfold boost_cost; destruct (_ && _); lia).
      lia.
    + auto.
    + auto.
    + intros r0 id0 p0 H0. discriminate.
  - destruct (reachable_ok events r G) as [Hp _].
    destruct (Hp id p Gp) as (_ & Hhd & _).
    unfold tail_of. destruct (p_body p) as [|seg body] eqn:B; [discriminate|].
    destruct (nth_error (seg :: body) (length (seg :: body) - 1)) eqn:N; eauto.
    apply nth_error_None in N. cbn [length] in N. lia.
Qed.

(** ** The boundary *)

Lemma leb_not_ltb a b : (a <=? b) = true -> (b <? a) = false.
Proof.
  rewrite leb_spec, ltb_spec. unfold SFleb, SFltb.
  rewrite (SFcompare_antisym (Prim2SF a) (Prim2SF b)).
  destruct (SFcompare (Prim2SF a) (Prim2SF b)) as [[| |]|]; simpl; congruence.
Qed.

Lemma clamp_inside v :
  (MAP_MIN <=? v) = true -> (v <=? MAP_MAX) = true -> clamp v = v.
Proof.
  intros H1 H2. unfold clamp.
  now rewrite (leb_not_ltb H1), (leb_not_ltb H2).
Qed.

(** X14.  The boundary check is a projection onto the arena: a coordinate
    between [-MAP_SIZE / 2] and [MAP_SIZE / 2] passes unchanged (the walls
    do not push a player that is inside), and checking twice is the same as
    checking once, for every value including NaN. *)
Theorem the_boundary_check_is_a_projection v :
  clamp (clamp v) = clamp v /\
  ((MAP_MIN <=? v) = true -> (v <=? MAP_MAX) = true -> clamp v = v).
Proof.
  split; [|apply clamp_inside].
  destruct (is_nan v) eqn:N.
  - now rewrite !(clamp_nan _ N).
  - destruct (clamp_bounds _ N) as [H1 H2]. now apply clamp_inside.
Qed.

(** ** The client's frame and snapshot handlers *)

Lemma forget_drops (target : JsObj.t Player) id : forall l (ps : JsObj.t Local),
  JsObj.get target id = None ->
  In id l \/ JsObj.get ps id = None ->
  JsObj.get
    (fold_left (fun ps id => match JsObj.get target id with
                             | Some _ => ps
                             | None => JsObj.delete ps id
                             end) l ps) id = None.
Proof.
  induction l as [|k l IH]; intros ps Ht H; cbn [fold_left].
  - destruct H as [[]|H]. exact H.
  - apply IH; auto.
    destruct (String.eqb_spec k id) as [->|Hne].
    + right. rewrite Ht. apply get_delete_same.
    + destruct H as [[H|H]|H]; [contradiction | now left | right].
      destruct (JsObj.get target k); auto.
      now rewrite get_delete_other.
Qed.

(** X15.  One frame of the client, player by player: a player the latest
    snapshot does not have is no longer rendered; a player the snapshot has
    and the client did not know is rendered as the snapshot gives it,
    without smoothing; a player both have moves a tenth of the way to its
    target and takes heading, score, name, color and body from it.  The
    food and the client's identity are untouched, and the camera goes to
    the rendered position of the client's own player while it is playing
    and has one, and stays where it is otherwise. *)
Theorem a_frame_reconciles_every_player c :
  let c' := update c in
  (forall id,
      rendered (players c') (targetPlayers c') id =
      match JsObj.get (targetPlayers c) id with
      | None => None
      | Some t =>
          match rendered (players c) (targetPlayers c) id with
          | Some p => Some (interpolate p t)
          | None => Some t
          end
      end) /\
  food c' = food c /\ myId c' = myId c /\ isPlaying c' = isPlaying c /\
  camera c' =
    (if isPlaying c then
       match rendered (players c') (targetPlayers c') (myId c) with
       | Some p => (p_x p, p_y p)
       | None => camera c
       end
     else camera c).
Proof.
  cbn zeta. split.
  - intros id. destruct (JsObj.get (targetPlayers c) id) as [t|] eqn:Gt.
    + destruct (rendered (players c) (targetPlayers c) id) as [p|] eqn:R.
      * now apply update_rendered.
      * assert (JsObj.get (players c) id = None) as Gp.
        { unfold rendered in R.
          destruct (JsObj.get (players c) id) as [[|q]|]; congruence. }
        unfold update.
        assert (In id (JsObj.keys (targetPlayers c))) as Hin by (apply keys_in; eauto).
        destruct (@approach_loop _ (targetPlayers c) (players c)
                    (keys_NoDup (targetPlayers c)) id) as [_ Hloop].
        destruct (Hloop Hin t Gt) as [H1 H2]. clear Hloop.
        destruct (JsObj.for_in approach _ _ _) as [target1 players1].
        cbn [fst snd players targetPlayers] in *.
        unfold approach in H1, H2. rewrite Gp in H1, H2. cbn [fst snd] in H1, H2.
        rewrite get_set_same in H2.
        unfold rendered. now rewrite (@forget_keeps _ players1 id _ H1), H2.
    + unfold update.
      assert (~ In id (JsObj.keys (targetPlayers c))) as Hnin.
      { intros Hin. apply keys_in in Hin. destruct Hin as [v Hv]. congruence. }
      destruct (@approach_loop _ (targetPlayers c) (players c)
                  (keys_NoDup (targetPlayers c)) id) as [Hloop _].
      destruct (Hloop Hnin) as [H1 H2]. clear Hloop.
      destruct (JsObj.for_in approach _ _ _) as [target1 players1].
      cbn [fst snd players targetPlayers] in *.
      unfold rendered, forget.
      rewrite forget_drops; auto; [congruence|].
      destruct (JsObj.get players1 id) as [v|] eqn:G; [left|now right].
      apply keys_in. eauto.
  - unfold update.
    destruct (JsObj.for_in approach _ _ _) as [target1 players1].
    cbn [food myId isPlaying camera players targetPlayers]. auto.
Qed.

Lemma detach_rendered (old : JsObj.t Player) id p : forall ps,
  rendered ps old id = Some p -> JsObj.get (detach old ps) id = Some (Own p).
Proof.
  unfold rendered.
  induction ps as [|[k v] ps IH]; intros H; [discriminate|].
  cbn [JsObj.get] in H. cbn [detach].
  destruct (String.eqb id k) eqn:E.
  - apply String.eqb_eq in E. subst k. destruct v as [|q].
    + rewrite H. cbn [JsObj.get]. now rewrite String.eqb_refl.
    + cbn [JsObj.get]. rewrite String.eqb_refl. congruence.
  - destruct v as [|q].
    + destruct (JsObj.get old k); cbn [JsObj.get]; rewrite ?E; auto.
    + cbn [JsObj.get]. rewrite E. auto.
Qed.

Lemma get_copies (o : JsObj.t Player) id :
  JsObj.get (map (fun kv => (fst kv, Own (snd kv))) o) id =
  option_map Own (JsObj.get o id).
Proof.
  induction o as [|[k v] o IH]; [reflexivity|].
  cbn [map JsObj.get fst snd]. now destruct (String.eqb id k).
Qed.

(** X16.  A snapshot replaces the client's targets and food and moves
    nothing on the screen: every player rendered before the snapshot is
    rendered unchanged after it, and camera and identity stay.  Only
    a client that holds no player at all starts from the snapshot: it then
    renders every player of the snapshot as the snapshot gives it. *)
Theorem a_snapshot_moves_nothing_on_screen statePlayers stateFood c :
  let c' := on_gameState statePlayers stateFood c in
  targetPlayers c' = statePlayers /\ food c' = stateFood /\
  camera c' = camera c /\ myId c' = myId c /\ isPlaying c' = isPlaying c /\
  (forall id p, rendered (players c) (targetPlayers c) id = Some p ->
                rendered (players c') (targetPlayers c') id = Some p) /\
  (players c = JsObj.empty Local ->
   forall id, rendered (players c') (targetPlayers c') id = JsObj.get statePlayers id).
Proof.
  cbn zeta. unfold on_gameState. cbn [targetPlayers food camera myId isPlaying players].
  repeat match goal with |- _ /\ _ => split end; auto.
  - intros id p R. apply detach_rendered in R.
    destruct (length (JsObj.keys (detach (targetPlayers c) (players c))) =? 0)%nat
      eqn:E.
    + rewrite (proj1 (keys_nil_iff _) E) in R. discriminate.
    + unfold rendered. now rewrite R.
  - intros -> id. cbn. unfold rendered. rewrite get_copies.
    now destruct (JsObj.get statePlayers id).
Qed.

Lemma update_not_playing c :
  isPlaying c = false ->
  isPlaying (update c) = false /\ camera (update c) = camera c.
Proof.
  intros H. unfold update.
  destruct (JsObj.for_in approach _ _ _) as [target1 players1].
  cbn [isPlaying camera]. now rewrite H.
Qed.

(** X17.  After the server's [dead] message the client is no longer
    playing, and no number of frames moves its camera: it stays where the
    player died while the other players keep being reconciled. *)
Theorem the_camera_rests_after_death socketId c k :
  let c' := frames k (on_dead socketId c) in
  isPlaying c' = false /\ camera c' = camera c /\ myId c' = socketId.
Proof.
  cbn zeta.
  assert (forall k c0, isPlaying c0 = false ->
            isPlaying (frames k c0) = false /\ camera (frames k c0) = camera c0 /\
            myId (frames k c0) = myId c0) as H.
  { clear. induction k as [|k IH]; intros c0 H0; cbn [frames]; auto.
    destruct (update_not_playing c0 H0) as [H1 H2].
    destruct (IH (update c0) H1) as (I1 & I2 & I3).
    rewrite I1, I2, I3, H2. repeat split; auto.
    unfold update. now destruct (JsObj.for_in approach _ _ _). }
  apply (H k (on_dead socketId c)). reflexivity.
Qed.

(** ** Ticks and headings over executions *)

Lemma step_tickCount s e r room' :
  JsObj.get (rooms (step s e)) r = Some room' ->
  (exists room,
      JsObj.get (rooms s) r = Some room /\
      r_tickCount room' =
      (r_tickCount room + match e with interval => 1 | _ => 0 end)%Z) \/
  r_tickCount room' = 0%Z.
Proof.
  intros G. destruct e as [sid rid name|sid angle|sid b|sid|]; cbn [step] in G.
  - destruct (on_joinRoom_cases sid rid name s) as [(_ & _ & E)|(_ & E)];
      rewrite E in G; clear E.
    { cbn [rooms] in G. left. exists room'. split; [auto|lia]. }
    destruct (JsObj.get (rooms s) rid) as [room|] eqn:Gr.
    + destruct (new_player sid name (s_rng s)) as [player n2]. cbn [rooms] in G.
      destruct (String.eqb_spec rid r) as [->|Hne].
      * rewrite get_set_same in G. injection G as <-. left. exists room.
        cbn [r_tickCount]. split; [auto|lia].
      * rewrite get_set_other in G by assumption. left. exists room'.
        split; [auto|lia].
    + destruct (createRoom (s_rng s)) as [room n1] eqn:C.
      assert (r_tickCount room = 0%Z) as Ht.
      { unfold createRoom in C. destruct (seed_food 100 [] (s_rng s)).
        injection C as <- _. reflexivity. }
      destruct (new_player sid name n1) as [player n2]. cbn [rooms] in G.
      destruct (String.eqb_spec rid r) as [->|Hne].
      * rewrite get_set_same in G. injection G as <-. right. exact Ht.
      * rewrite get_set_other in G by assumption. left. exists room'.
        split; [auto|lia].
  - change (on_input sid angle s)
      with (intent (fun q => with_angle q angle) sid s) in G.
    destruct (intent_frame (fun q => with_angle q angle) sid s) as (_ & B & _).
    cbn zeta in B. specialize (B r). rewrite G in B.
    destruct (JsObj.get (rooms s) r) as [room|]; [|discriminate].
    left. exists room. split; auto. cbn [option_map] in B.
    unfold room_meta in B. injection B as _ ->. lia.
  - change (on_boost sid b s)
      with (intent (fun q => with_isBoosting q b) sid s) in G.
    destruct (intent_frame (fun q => with_isBoosting q b) sid s) as (_ & B & _).
    cbn zeta in B. specialize (B r). rewrite G in B.
    destruct (JsObj.get (rooms s) r) as [room|]; [|discriminate].
    left. exists room. split; auto. cbn [option_map] in B.
    unfold room_meta in B. injection B as _ ->. lia.
  - destruct (disconnect_rooms sid s r) as [_ H].
    destruct (H room' G) as (room & Gr & M).
    left. exists room. split; auto.
    unfold room_meta in M. injection M as _ ->. lia.
  - apply gameLoop_get in G. destruct G as (room & n & out & G & ->).
    left. exists room. split; auto.
    now destruct (tick_room_closed r (mkWork room n out)) as (_ & Ht & _).
Qed.

Lemma run_tickCount events : forall s bound,
  (0 <= bound)%Z ->
  (forall r room, JsObj.get (rooms s) r = Some room ->
                  (0 <= r_tickCount room <= bound)%Z) ->
  forall r room, JsObj.get (rooms (run events s)) r = Some room ->
                 (0 <= r_tickCount room <= bound + Z.of_nat (ticks events))%Z.
Proof.
  unfold run.
  induction events as [|e events IH]; intros s bound Hb Hs r room G;
    cbn [fold_left] in G.
  - specialize (Hs r room G). unfold ticks. cbn. lia.
  - assert (Z.of_nat (ticks (e :: events)) =
            (match e with interval => 1 | _ => 0 end + Z.of_nat (ticks events))%Z) as ->.
    { unfold ticks. cbn [filter]. destruct e; cbn [length]; lia. }
    assert (0 <= match e with interval => 1 | _ => 0 end)%Z as He
      by (destruct e; lia).
    assert (forall r0 room0, JsObj.get (rooms (step s e)) r0 = Some room0 ->
              (0 <= r_tickCount room0 <=
               bound + match e with interval => 1 | _ => 0 end)%Z) as Hstep.
    { intros r0 room0 G0.
      destruct (step_tickCount s e r0 G0) as [(room1 & G1 & ->)| ->]; [|lia].
      specialize (Hs r0 room1 G1). lia. }
    assert (0 <= bound + match e with interval => 1 | _ => 0 end)%Z as Hb' by lia.
    specialize (IH (step s e) _ Hb' Hstep r room G). lia.
Qed.

(** X18.  A room's tick counter counts game-loop runs: in every state the
    server can reach it is at least 0 and at most the number of ticks the
    server has run (a room created later has seen fewer), so the remainder
    [tickCount % 5] of the boost rule is never negative. *)
Theorem the_tick_counter_counts_ticks events r room :
  JsObj.get (rooms (run events initial)) r = Some room ->
  (0 <= r_tickCount room <= Z.of_nat (ticks events))%Z /\
  (0 <= Z.rem (r_tickCount room) 5 < 5)%Z.
Proof.
  intros G.
  assert (0 <= r_tickCount room <= 0 + Z.of_nat (ticks events))%Z as H.
  { apply (@run_tickCount events initial 0%Z) with (r := r); auto; [lia|].
    intros r0 room0 G0. discriminate. }
  split; [lia|]. apply Z.rem_bound_pos; lia.
Qed.

Lemma player_turn_angle tickCount t :
  p_angle (t_player (player_turn tickCount t)) = p_angle (t_player t).
Proof.
  rewrite player_turn_closed. cbn [t_player].
  destruct (handle_boosting_frame tickCount t) as (_ & _ & Ha & _).
  cbn zeta in Ha. unfold fed. cbn. auto.
Qed.

(** X19.  A heading sent by a socket steers its player in the next tick:
    after [input] and one run of the game loop, the player is either gone
    (it died in that tick) or it has moved from where it was by one step in
    the direction sent, at its current speed, clamped to the arena, and
    still has that heading. *)
Theorem the_heading_sent_steers_the_next_tick socketId angle s roomId room player :
  player_of socketId s = Some (roomId, room, player) ->
  let s' := gameLoop (on_input socketId angle s) in
  player_in s' roomId socketId = None \/
  exists p',
    player_in s' roomId socketId = Some p' /\
    p_x p' = clamp (p_x player + Math_cos angle * speed_of player) /\
    p_y p' = clamp (p_y player + Math_sin angle * speed_of player) /\
    p_angle p' = angle.
Proof.
  intros P. cbn zeta.
  destruct (player_in (gameLoop (on_input socketId angle s)) roomId socketId)
    as [p'|] eqn:G; [right|now left].
  exists p'. split; auto.
  unfold player_in in G.
  destruct (JsObj.get (rooms (gameLoop (on_input socketId angle s))) roomId)
    as [room'|] eqn:Gr; [|discriminate].
  apply gameLoop_get in Gr. destruct Gr as (room1 & n & out & G1 & ->).
  destruct (tick_room_closed roomId (mkWork room1 n out)) as (_ & _ & _ & Hget).
  cbn zeta in Hget. cbn [w_room w_rng] in Hget. rewrite Hget in G.
  destruct (in_dec string_dec socketId _); [discriminate|].
  apply moved_get_inv in G. destruct G as (q & food0 & m0 & Gq & _ & ->).
  assert (q = with_angle player angle) as ->.
  { change (on_input socketId angle s)
      with (intent (fun q => with_angle q angle) socketId s) in G1.
    destruct (intent_frame (fun q => with_angle q angle) socketId s) as (_ & _ & C).
    cbn zeta in C. specialize (C roomId socketId).
    rewrite P, !String.eqb_refl in C. cbn [andb] in C.
    unfold player_in in C at 1. rewrite G1, Gq in C. congruence. }
  destruct (player_turn_advance (r_tickCount room1 + 1)
              (mkTurn (with_angle player angle) food0 m0)) as (Hx & Hy & _).
  cbn zeta in Hx, Hy. cbn [t_player] in Hx, Hy.
  rewrite Hx, Hy, player_turn_angle. cbn [t_player].
  split; [|split]; reflexivity.
Qed.

End Server.

(** * Worked executions *)

Open Scope string_scope.
Open Scope float_scope.

(** C1, the claim as stated fails.  [head_on]: A (at (8,0)) and B (at
    (0,0)) both head right; after the move A's head (13,0) is 8 units from
    B's new head (5,0) and 13 units from every segment B had before the
    tick: A is marked dead by a segment that did not exist before the tick.
    [passing_tail]: A's moved head (11,0) is 9 units from the tail segment
    (20,0) B had before the tick, which B's move drops, and 14 units or more
    from B's moved body: A is not marked. *)
Lemma moved_head_kills_and_dropped_tail_spares :
  let after room :=
    r_players (fst (moved no_trig no_trig textbook_hypot food_in_the_corner room 0)) in
  (In "A" (deadPlayers textbook_hypot (after head_on)) /\
   hits_body textbook_hypot
             (JsObj.get (after head_on) "A") (JsObj.get (r_players head_on) "B") = false /\
   hits_body textbook_hypot
             (JsObj.get (after head_on) "A") (JsObj.get (after head_on) "B") = true) /\
  (~ In "A" (deadPlayers textbook_hypot (after passing_tail)) /\
   hits_body textbook_hypot
             (JsObj.get (after passing_tail) "A")
             (JsObj.get (r_players passing_tail) "B") = true /\
   hits_body textbook_hypot
             (JsObj.get (after passing_tail) "A")
             (JsObj.get (after passing_tail) "B") = false).
Proof.
  cbn zeta. split; split.
  - vm_compute. left. reflexivity.
  - split; vm_compute; reflexivity.
  - vm_compute. intros H. exact H.
  - split; vm_compute; reflexivity.
Qed.

(** C2, the claim as stated fails.  A boosting player with score 11 in a
    room whose tick counter is 4: the tick (counter 5) deducts one point,
    and the player the tick leaves, with score 10, still has its boosting
    flag set; the flag is cleared by the tick after. *)
Lemma boost_flag_outlives_the_drop :
  let tick := tick_room no_trig no_trig textbook_hypot food_in_the_corner "1" in
  let w5 := tick (mkWork last_paid_boost 0 []) in
  let w6 := tick w5 in
  state_of (JsObj.get (r_players last_paid_boost) "A") = Some (11%Z, true) /\
  r_tickCount (w_room w5) = 5%Z /\
  state_of (JsObj.get (r_players (w_room w5)) "A") = Some (10%Z, true) /\
  state_of (JsObj.get (r_players (w_room w6)) "A") = Some (10%Z, false).
Proof. cbn zeta. evaluate. Qed.

(** C2, the amended claim at a boosting player with score 11 on tick 5. *)
Lemma boost_economy_witness :
  let t := mkTurn (stretched "A" 0 0 11 true) [] 0 in
  let r := handle_boosting food_in_the_corner 5 t in
  p_isBoosting (t_player t) = true /\
  p_isBoosting (t_player (snd r)) = true /\
  fst r = BOOST_SPEED /\
  p_score (t_player (snd r)) = (p_score (t_player t) - 1)%Z.
Proof.
  cbn zeta.
  pose proof (@boost_economy no_trig no_trig textbook_hypot food_in_the_corner 5
                (mkTurn (stretched "A" 0 0 11 true) [] 0) eq_refl) as T.
  cbn zeta in T. destruct T as [_ [T _]].
  destruct T as (Hb & Hs & _ & Hdiv & _); [vm_compute; reflexivity|].
  destruct Hdiv as [Hsc _]; [vm_compute; reflexivity|].
  exact (conj eq_refl (conj Hb (conj Hs Hsc))).
Defined.

(** C3, the code at the failing input.  Two players join room "1", spawn at
    the same point and collide in the first tick: both are removed, and the
    room stays in the registry with no player, its tick counter at 1 and
    106 foods; the next join of "1" enters that room as it is.  When that
    player disconnects the room is deleted, and only then does a join
    create a room anew (100 foods, counter 0). *)
Lemma room_outlives_its_last_players :
  let play := run no_trig no_trig textbook_hypot food_in_the_corner in
  let s := play [joinRoom "a" "1" "A"; joinRoom "b" "1" "B"; interval] initial in
  let s' := play [joinRoom "c" "1" "C"] s in
  let s'' := play [disconnect "c"; joinRoom "d" "1" "D"] s' in
  summary s = [("1", [], 106%nat, 1%Z)] /\
  summary s' = [("1", ["c"], 106%nat, 1%Z)] /\
  r_food (room_at s' "1") = r_food (room_at s "1") /\
  summary (play [disconnect "c"] s') = [] /\
  summary s'' = [("1", ["d"], 100%nat, 0%Z)].
Proof. cbn zeta. evaluate. Qed.

(** C4, the claim as stated fails.  A and B stand at the same point and
    move to (5,0), where a food lies: both heads are within the pickup
    radius of it (at distance 0), and only A, whose turn comes first, gets
    the pickup; B's target length and score are unchanged, and the room's
    one food afterwards is the replacement in the corner. *)
Lemma second_player_finds_the_food_gone :
  let room1 :=
    fst (moved no_trig no_trig textbook_hypot (fun _ => 0) two_at_one_food 0) in
  growth_of (JsObj.get (r_players room1) "A") = Some (5, 0, 6%nat, 110%Z) /\
  growth_of (JsObj.get (r_players room1) "B") = Some (5, 0, 5%nat, 100%Z) /\
  (textbook_hypot (5 - f_x shared_food) (0 - f_y shared_food) <? 20) = true /\
  r_food room1 = [mkFood (-1000) (-1000) (Hsl 0)].
Proof. cbn zeta. evaluate. Qed.

(** C5 at a concrete execution: a player joins, eats one food in each of
    its first three ticks (target length 8, body 7), and eight ticks later
    its body has 8 segments. *)
Lemma body_follows_target_length_witness :
  let room :=
    room_at (run no_trig no_trig textbook_hypot bait
                 (joinRoom "a" "1" "A" :: repeat interval 3) initial) "1" in
  let p := player_at room "a" in
  let room' :=
    room_at (run no_trig no_trig textbook_hypot bait (repeat interval 8)
                 (run no_trig no_trig textbook_hypot bait
                      (joinRoom "a" "1" "A" :: repeat interval 3) initial)) "1" in
  let p' := player_at room' "a" in
  JsObj.get (rooms (run no_trig no_trig textbook_hypot bait
                        (joinRoom "a" "1" "A" :: repeat interval 3) initial)) "1"
    = Some room /\
  JsObj.get (r_players room) "a" = Some p /\
  ((length (p_body p) <= p_length p)%nat /\
   hd_error (p_body p) = Some (mkSegment (p_x p) (p_y p))) /\
  (length (p_body p) = 7%nat /\ p_length p = 8%nat) /\
  (length (p_body p') = p_length p' /\ length (p_body p') = 8%nat).
Proof.
  cbn zeta.
  match goal with |- ?A /\ ?B /\ _ =>
    assert (H1 : A) by (vm_compute; reflexivity);
    assert (H2 : B) by (vm_compute; reflexivity)
  end.
  pose proof (body_follows_target_length no_trig no_trig textbook_hypot bait
                (joinRoom "a" "1" "A" :: repeat interval 3) "1" "a" H1 H2) as T.
  destruct T as (A & B & C).
  split; [exact H1|]. split; [exact H2|]. split; [exact (conj A B)|].
  split; [split; vm_compute; reflexivity|].
  split; [|vm_compute; reflexivity].
  match goal with |- length (p_body (player_at ?rm _)) = _ =>
    apply (C (repeat interval 8) rm)
  end.
  - vm_compute; reflexivity.
  - vm_compute; reflexivity.
  - vm_compute; reflexivity.
  - vm_compute; reflexivity.
  - vm_compute. lia.
Defined.

(** C6 at a concrete execution: a room with two players that collide in the
    next tick holds 100 foods before it and 106 after. *)
Lemma food_count_never_decreases_witness :
  let s := run no_trig no_trig textbook_hypot food_in_the_corner
               [joinRoom "a" "1" "A"; joinRoom "b" "1" "B"] initial in
  let s' := step no_trig no_trig textbook_hypot food_in_the_corner s interval in
  JsObj.get (rooms s) "1" = Some (room_at s "1") /\
  (100 <= length (r_food (room_at s "1")))%nat /\
  (length (r_food (room_at s "1")) <= length (r_food (room_at s' "1")))%nat /\
  length (r_food (room_at s' "1")) = 106%nat.
Proof.
  cbn zeta.
  match goal with |- ?A /\ _ => assert (H1 : A) by (vm_compute; reflexivity) end.
  pose proof (food_count_never_decreases no_trig no_trig textbook_hypot
                food_in_the_corner
                [joinRoom "a" "1" "A"; joinRoom "b" "1" "B"] "1" H1) as T.
  destruct T as (A & B & _).
  split; [exact H1|]. split; [exact A|]. split; [|vm_compute; reflexivity].
  apply (B interval). vm_compute; reflexivity.
Defined.


(** C8, the claim as stated fails.  A player whose heading is not a number
    ([Math.cos] and [Math.sin] return NaN): after its turn both coordinates
    are NaN, whatever the engine, the random numbers and the tick, and
    neither bound holds of them. *)
Lemma nan_heading_escapes_the_clamp :
  exists t,
    forall cosf sinf hypotf random tickCount,
      let p' := t_player (player_turn cosf sinf hypotf random tickCount t) in
      (MAP_MIN <=? p_x p') = false /\ (p_x p' <=? MAP_MAX) = false /\
      (MAP_MIN <=? p_y p') = false /\ (p_y p' <=? MAP_MAX) = false.
Proof.
  exists (mkTurn (snake "A" 0 0 nan 100 false) [] 0).
  intros cosf sinf hypotf random tickCount. cbn zeta. evaluate.
Qed.

(** C9 at a concrete client: after two identical snapshots with the player
    at (3,4), rendered at (3,4), the player is rendered at exactly (3,4)
    after [update()]. *)
Lemma equal_target_is_a_fixed_point_witness :
  let p := snake "a" 3 4 0 100 false in
  rendered (players at_rest) (targetPlayers at_rest) "a" = Some p /\
  JsObj.get (targetPlayers at_rest) "a" = Some p /\
  (is_finite (p_x p) = true /\ is_finite (p_y p) = true) /\
  ((p_x p =? p_x p) = true /\ (p_y p =? p_y p) = true) /\
  exists p',
    rendered (players (update at_rest)) (targetPlayers (update at_rest)) "a" = Some p' /\
    p_x p' = 3 /\ p_y p' = 4.
Proof.
  cbn zeta.
  destruct (@equal_target_is_a_fixed_point at_rest "a"
              (snake "a" 3 4 0 100 false) (snake "a" 3 4 0 100 false)
              eq_refl eq_refl eq_refl eq_refl eq_refl eq_refl)
    as (p' & Hr & _ & _ & Hx & Hy).
  split; [reflexivity|]. split; [reflexivity|].
  split; [split; reflexivity|]. split; [split; reflexivity|].
  exists p'. split; [exact Hr|]. split; [apply Hx | apply Hy]; reflexivity.
Defined.

(** C10 at a concrete execution: a player that has eaten three foods has
    score 130. *)
Lemma score_at_least_ten_witness :
  let s := run no_trig no_trig textbook_hypot bait
               (joinRoom "a" "1" "A" :: repeat interval 3) initial in
  JsObj.get (rooms s) "1" = Some (room_at s "1") /\
  JsObj.get (r_players (room_at s "1")) "a" = Some (player_at (room_at s "1") "a") /\
  (10 <= p_score (player_at (room_at s "1") "a"))%Z /\
  p_score (player_at (room_at s "1") "a") = 130%Z.
Proof.
  cbn zeta.
  match goal with |- ?A /\ ?B /\ _ =>
    assert (H1 : A) by (vm_compute; reflexivity);
    assert (H2 : B) by (vm_compute; reflexivity)
  end.
  pose proof (score_at_least_ten no_trig no_trig textbook_hypot bait
                (joinRoom "a" "1" "A" :: repeat interval 3) "1" "a" H1 H2) as T.
  destruct T as (A & _).
  split; [exact H1|]. split; [exact H2|]. split; [exact A|].
  vm_compute; reflexivity.
Defined.


(** A join under the name of an inherited property: the handler throws
    having only joined the socket.io room; no room is made, nothing is
    answered and the socket's room is not recorded.  After a first join
    elsewhere, the socket's room stays the first one, so that its
    disconnect removes the first player and, with it, the room. *)
Example a_join_that_throws :
  let o := joinRoom_handler food_in_the_corner "a" "constructor" "A" initial in
  let events := [joinRoom "a" "1" "A"; joinRoom "a" "__proto__" "A"] in
  let s := run no_trig no_trig textbook_hypot food_in_the_corner events initial in
  throws o = true /\
  summary (state_after o) = [] /\
  s_emitted (state_after o) = [] /\
  s_roomId (state_after o) = [] /\
  s_joined (state_after o) = [("a", "constructor")] /\
  summary s = [("1", ["a"], 100%nat, 0%Z)] /\
  s_roomId s = [("a", "1")] /\
  summary (on_disconnect "a" s) = [].
Proof. cbn zeta. evaluate. Qed.

(** X6 at a concrete execution: socket a joins room 1 as A, then room 2,
    then disconnects; A is still in room 1. *)
Lemma a_second_join_leaves_the_first_player_behind_witness :
  let s1 := on_joinRoom food_in_the_corner "a" "1" "A" initial in
  let s2 := on_joinRoom food_in_the_corner "a" "2" "A2" s1 in
  let s3 := on_disconnect "a" s2 in
  ("1" <> "2" /\ JsObj.inherited "1" = false /\ JsObj.inherited "2" = false) /\
  exists p, p_name p = "A" /\ player_in s3 "1" "a" = Some p /\
            player_in s3 "2" "a" = None.
Proof.
  cbn zeta.
  assert (H : "1" <> "2") by discriminate.
  pose proof (@a_second_join_leaves_the_first_player_behind
                food_in_the_corner "a" "1" "2" "A" "A2" initial H eq_refl eq_refl) as T.
  cbn zeta in T.
  destruct T as (p & (_ & Hn) & _ & _ & H3 & _ & _ & H4 & _).
  split; [exact (conj H (conj eq_refl eq_refl))|]. exists p. split; [exact Hn|]. split; [exact H3|].
  apply H4. discriminate.
Defined.

(** X8 at a room with one boosting player. *)
Lemma a_lone_player_never_dies_witness :
  let w := mkWork last_paid_boost 0 [] in
  let w' := tick_room no_trig no_trig textbook_hypot food_in_the_corner "1" w in
  JsObj.keys (r_players (w_room w)) = ["A"] /\
  JsObj.keys (r_players (w_room w')) = ["A"] /\
  broadcasts (w_emitted w') = 1%nat.
Proof.
  cbn zeta.
  assert (H : JsObj.keys (r_players (w_room (mkWork last_paid_boost 0 []))) = ["A"])
    by (vm_compute; reflexivity).
  pose proof (@a_lone_player_never_dies no_trig no_trig textbook_hypot
                food_in_the_corner "1" (mkWork last_paid_boost 0 []) "A" H) as T.
  cbn zeta in T. destruct T as (_ & K & E).
  split; [exact H|]. split; [exact K|]. rewrite E. reflexivity.
Defined.

(** X11 at two players spawned on the same point. *)
Lemma a_head_on_a_segment_dies_witness :
  let ps := r_players two_at_one_food in
  let p := snake "A" 0 0 0 100 false in
  let q := snake "B" 0 0 0 100 false in
  JsObj.get ps "A" = Some p /\ JsObj.get ps "B" = Some q /\
  In (mkSegment (p_x p) (p_y p)) (p_body q) /\
  In "A" (deadPlayers textbook_hypot ps).
Proof.
  cbn zeta.
  assert (H : In (mkSegment (p_x (snake "A" 0 0 0 100 false))
                            (p_y (snake "A" 0 0 0 100 false)))
                 (p_body (snake "B" 0 0 0 100 false)))
    by (left; reflexivity).
  assert (Hne : "B" <> "A") by discriminate.
  split; [reflexivity|]. split; [reflexivity|]. split; [exact H|].
  exact (@a_head_on_a_segment_dies textbook_hypot (r_players two_at_one_food)
           "A" "B" (snake "A" 0 0 0 100 false) (snake "B" 0 0 0 100 false)
           Hne eq_refl eq_refl eq_refl eq_refl H).
Defined.

(** X13 at a concrete execution: a player that has eaten three foods is
    stored under its identifier with score 130 and target length 8. *)
Lemma players_earn_their_score_by_length_witness :
  let s := run no_trig no_trig textbook_hypot bait
               (joinRoom "a" "1" "A" :: repeat interval 3) initial in
  let p := player_at (room_at s "1") "a" in
  JsObj.get (rooms s) "1" = Some (room_at s "1") /\
  JsObj.get (r_players (room_at s "1")) "a" = Some p /\
  p_id p = "a" /\
  (p_score p <= INITIAL_SCORE + 10 * (Z.of_nat (p_length p) - Z.of_nat INITIAL_LENGTH))%Z /\
  p_score p = 130%Z /\ p_length p = 8%nat.
Proof.
  cbn zeta.
  match goal with |- ?A /\ ?B /\ _ =>
    assert (H1 : A) by (vm_compute; reflexivity);
    assert (H2 : B) by (vm_compute; reflexivity)
  end.
  pose proof (players_earn_their_score_by_length no_trig no_trig textbook_hypot bait
                (joinRoom "a" "1" "A" :: repeat interval 3) "1" "a" H1 H2) as T.
  destruct T as (A & B & _).
  split; [exact H1|]. split; [exact H2|]. split; [exact A|]. split; [exact B|].
  split; vm_compute; reflexivity.
Defined.

(** X18 at a concrete execution: three ticks after the room's creation its
    counter is 3. *)
Lemma the_tick_counter_counts_ticks_witness :
  let events := joinRoom "a" "1" "A" :: repeat interval 3 in
  let s := run no_trig no_trig textbook_hypot bait events initial in
  JsObj.get (rooms s) "1" = Some (room_at s "1") /\
  (0 <= r_tickCount (room_at s "1") <= Z.of_nat (ticks events))%Z /\
  r_tickCount (room_at s "1") = 3%Z.
Proof.
  cbn zeta.
  match goal with |- ?A /\ _ =>
    assert (H1 : A) by (vm_compute; reflexivity)
  end.
  pose proof (the_tick_counter_counts_ticks no_trig no_trig textbook_hypot bait
                (joinRoom "a" "1" "A" :: repeat interval 3) "1" H1) as T.
  destruct T as (A & _).
  split; [exact H1|]. split; [exact A|]. vm_compute; reflexivity.
Defined.

(** X19 at a concrete execution: a player spawned at the origin that sends
    heading 0 is at (5, 0) after the next tick. *)
Lemma the_heading_sent_steers_the_next_tick_witness :
  let s := on_joinRoom food_in_the_corner "a" "1" "A" initial in
  let s' := gameLoop no_trig no_trig textbook_hypot food_in_the_corner
                     (on_input "a" 0 s) in
  player_of "a" s = Some ("1", room_at s "1", player_at (room_at s "1") "a") /\
  exists p', player_in s' "1" "a" = Some p' /\ p_x p' = 5 /\ p_y p' = 0 /\ p_angle p' = 0.
Proof.
  cbn zeta.
  match goal with |- ?A /\ _ =>
    assert (H1 : A) by (vm_compute; reflexivity)
  end.
  destruct (@the_heading_sent_steers_the_next_tick no_trig no_trig textbook_hypot
              food_in_the_corner "a" 0 _ _ _ _ H1) as [N | (p' & G & Hx & Hy & Ha)].
  - exfalso. vm_compute in N. discriminate N.
  - split; [exact H1|]. exists p'. split; [exact G|].
    split; [rewrite Hx; vm_compute; reflexivity|].
    split; [rewrite Hy; vm_compute; reflexivity | exact Ha].
Defined.
